(** * ObjTable: the C++ wrapper for SCIP statistics tables

    A shallow embedding of [src/scip/src/objscip/objtable.h]: the class
    [scip::ObjTable] (its fields, constructor, destructor and the five
    default callbacks) together with the three bridge functions the header
    declares.  C++ methods are computations over an explicit program state
    ([World]); a method receives its [this] pointer and reads and writes the
    object's fields in the object store. *)

From Stdlib Require Import ZArith Lia.
From Stdlib Require Import Strings.Byte.
From stdpp Require Import base option list gmap fin_maps strings.

Local Open Scope Z_scope.
Local Open Scope N_scope.

(** ** Values *)

(** [char]: one byte.  A C string is a run of bytes closed by [x00]. *)
#[global] Instance byte_eq_dec : EqDecision byte := Byte.byte_eq_dec.

(** Pointers are block addresses; address [0] is the null pointer
    (the constructor initialises [scip_name_(0)], [scip_desc_(0)]). *)
Abbreviation ptr := N.
Definition NULL : ptr := 0.

(** Modelled from the spec: [SCIP_STAGE], declared in the host's headers,
    is the "enum marking the minimum host lifecycle stage".  An enum value
    is carried as its underlying integer, so that out-of-range values, which
    the spec leaves to the host, can reach the constructor too. *)
Definition SCIP_STAGE : Type := Z.

(** Modelled from the spec: [SCIP_RETCODE], declared in the host's headers,
    is the "success/failure result" of every callback and bridge function.
    objtable.h names [SCIP_OKAY]; the failures are the allocation failure,
    the invalid data of a name collision, and a generic error for callbacks
    written by the user. *)
Inductive SCIP_RETCODE : Type :=
| SCIP_OKAY
| SCIP_ERROR
| SCIP_NOMEMORY
| SCIP_INVALIDDATA.

#[global] Instance SCIP_RETCODE_eq_dec : EqDecision SCIP_RETCODE.
Proof. solve_decision. Defined.

(** ** The class layout (objtable.h, lines 48-61) *)

Record ObjTable : Type := mkObjTable {
  scip_ : ptr;                       (* SCIP* scip_ *)
  scip_name_ : ptr;                  (* char* scip_name_ *)
  scip_desc_ : ptr;                  (* char* scip_desc_ *)
  scip_position_ : Z;                (* const int scip_position_ *)
  scip_earlieststage_ : SCIP_STAGE   (* SCIP_STAGE scip_earlieststage_ *)
}.

(** The two pointer fields that are passed by address ([&scip_name_],
    [&scip_desc_]) to the host's memory macros. *)
Inductive field : Type := F_name | F_desc.

Definition read_field (f : field) (o : ObjTable) : ptr :=
  match f with
  | F_name => scip_name_ o
  | F_desc => scip_desc_ o
  end.

Definition write_field (f : field) (p : ptr) (o : ObjTable) : ObjTable :=
  match f with
  | F_name => mkObjTable (scip_ o) p (scip_desc_ o)
                         (scip_position_ o) (scip_earlieststage_ o)
  | F_desc => mkObjTable (scip_ o) (scip_name_ o) p
                         (scip_position_ o) (scip_earlieststage_ o)
  end.

(** ** The host's registry entry (a [SCIP_TABLE]) *)

(** Modelled from the spec: the user-data slot of a registry entry, whose
    type [SCIP_TABLEDATA] lives in objtable.cpp, which is not part of the
    sources.  It is an opaque pointer that "is the Adapter Object,
    type-erased", together with the ownership flag [deleteobject]; an entry
    registered through another mechanism carries no such data or data of a
    foreign kind. *)
Inductive tabledata : Type :=
| TD_none
| TD_objtable (objtable : ptr) (deleteobject : bool)
| TD_foreign (data : ptr).

(** Modelled from the spec: the host-side registry entry, declared in the
    host's headers: the plugin name and description, the position and
    earliest stage handed over at registration, and the user-data slot. *)
Record SCIP_TABLE : Type := mkTable {
  table_name : list byte;
  table_desc : list byte;
  table_position : Z;
  table_earlieststage : SCIP_STAGE;
  table_data : tabledata
}.

(** ** Program state *)

(** Events of the memory discipline, in the order they happen. *)
Inductive event : Type :=
| EvAlloc (p : ptr)      (* a string block was allocated *)
| EvFree (p : ptr)       (* a string block was released *)
| EvNew (q : ptr)        (* storage of an object was obtained (new) *)
| EvDelete (q : ptr).    (* storage of an object was released (delete) *)

#[global] Instance event_eq_dec : EqDecision event.
Proof. solve_decision. Defined.

Record World : Type := mkWorld {
  heap : gmap N (list byte);        (* live character blocks *)
  objs : gmap N ObjTable;           (* live ObjTable objects *)
  tables : gmap N SCIP_TABLE;       (* live registry entries, by handle *)
  registry : gmap N (list N);       (* per host: the handles of its included
                                       tables, in order of inclusion *)
  oracle : list bool;               (* answers of the host allocator to the
                                       coming requests; [false] = denied *)
  trace : list event
}.

Definition set_heap (h : gmap N (list byte)) (w : World) : World :=
  mkWorld h (objs w) (tables w) (registry w) (oracle w) (trace w).
Definition set_objs (os : gmap N ObjTable) (w : World) : World :=
  mkWorld (heap w) os (tables w) (registry w) (oracle w) (trace w).
Definition set_tables (ts : gmap N SCIP_TABLE) (w : World) : World :=
  mkWorld (heap w) (objs w) ts (registry w) (oracle w) (trace w).
Definition set_registry (r : gmap N (list N)) (w : World) : World :=
  mkWorld (heap w) (objs w) (tables w) r (oracle w) (trace w).
Definition set_oracle (l : list bool) (w : World) : World :=
  mkWorld (heap w) (objs w) (tables w) (registry w) l (trace w).
Definition log (e : event) (w : World) : World :=
  mkWorld (heap w) (objs w) (tables w) (registry w) (oracle w)
          (trace w ++ [e]).

(** ** Computations: state, abort, undefined behaviour *)

Inductive outcome (A : Type) : Type :=
| Done (a : A) (w : World)                 (* normal return *)
| Aborted (rc : SCIP_RETCODE) (w : World)  (* the process was aborted *)
| Undefined.                               (* C++ undefined behaviour *)
Arguments Done {A} a w.
Arguments Aborted {A} rc w.
Arguments Undefined {A}.

Definition Comp (A : Type) : Type := World → outcome A.

#[global] Instance Comp_ret : MRet Comp := λ A a w, Done a w.
#[global] Instance Comp_bind : MBind Comp := λ A B k m w,
  match m w with
  | Done a w' => k a w'
  | Aborted rc w' => Aborted rc w'
  | Undefined => Undefined
  end.

Definition get_world : Comp World := λ w, Done w w.
Definition modify (f : World → World) : Comp unit := λ w, Done tt (f w).
Definition undefined {A} : Comp A := λ _, Undefined.
Definition abort {A} (rc : SCIP_RETCODE) : Comp A := λ w, Aborted rc w.

(** Field access through a [this] pointer; a dangling [this] is undefined. *)
Definition load_obj (this : ptr) : Comp ObjTable := λ w,
  match objs w !! this with
  | Some o => Done o w
  | None => Undefined
  end.

Definition store_obj (this : ptr) (o : ObjTable) : Comp unit :=
  modify (λ w, set_objs (<[this := o]> (objs w)) w).

Definition load_field (lv : ptr * field) : Comp ptr :=
  o ← load_obj lv.1; mret (read_field lv.2 o).

Definition store_field (lv : ptr * field) (p : ptr) : Comp unit :=
  o ← load_obj lv.1; store_obj lv.1 (write_field lv.2 p o).

(** Reading the member [scip_]. *)
Definition load_scip (this : ptr) : Comp ptr :=
  o ← load_obj this; mret (scip_ o).

(** ** C strings *)

(** The bytes before the first [x00], if there is one. *)
Fixpoint cstr_of (b : list byte) : option (list byte) :=
  match b with
  | [] => None
  | c :: b' => if decide (c = x00) then Some [] else (c ::.) <$> cstr_of b'
  end.

(** The string a pointer designates. *)
Definition cstr (h : gmap N (list byte)) (p : ptr) : option (list byte) :=
  h !! p ≫= cstr_of.

(** [std::strlen]: undefined unless the argument is a NUL-terminated block. *)
Definition strlen (p : ptr) : Comp nat := λ w,
  match cstr (heap w) p with
  | Some s => Done (length s) w
  | None => Undefined
  end.

Definition valid_cstr (h : gmap N (list byte)) (p : ptr) : Prop :=
  is_Some (cstr h p).

(** ** The host's memory and error macros *)

(** An address that is not null and not in use in [m]. *)
Definition fresh_in {V} (m : gmap N V) : ptr := fresh ({[NULL]} ∪ dom m).

(** Whether the host serves the next allocation request. *)
Definition grants (answers : list bool) : bool :=
  match answers with
  | false :: _ => false
  | _ => true
  end.

(** Modelled from the spec: the host's block allocator behind the memory
    macros (defined in the host's headers, not in objtable.h).  A request
    that the host cannot serve yields the null pointer; a served request
    yields a block that was not live before and is not null. *)
Definition host_alloc (num : nat) : Comp ptr := λ w,
  if grants (oracle w) then
    let p := fresh_in (heap w) in
    Done p (log (EvAlloc p)
              (set_heap (<[p := replicate num x00]> (heap w))
                 (set_oracle (tail (oracle w)) w)))
  else Done NULL (set_oracle (tail (oracle w)) w).

(** The copy made by the duplication: the first [num] bytes of block [src]
    go into block [dst]; reading past the end of [src] is undefined. *)
Definition copy_bytes (dst src : ptr) (num : nat) : Comp unit := λ w,
  match heap w !! src with
  | Some b =>
      if decide (num ≤ length b)%nat
      then Done tt (set_heap (<[dst := take num b]> (heap w)) w)
      else Undefined
  | None => Undefined
  end.

(** Modelled from the spec: the macro [SCIPduplicateMemoryArray(scip, ptr,
    source, num)] of the host's headers: "the adapter performs allocation
    ... through host-provided allocation/error primitives" and the strings
    are "copied (not referenced)".  It allocates [num] elements, copies
    them from [source], assigns the result to the pointer variable and
    reports an allocation failure as a result code. *)
Definition SCIPduplicateMemoryArray (scip : ptr) (lv : ptr * field)
    (source : ptr) (num : nat) : Comp SCIP_RETCODE :=
  p ← host_alloc num;
  (if decide (p = NULL) then mret tt else copy_bytes p source num);;
  store_field lv p;;
  mret (if decide (p = NULL) then SCIP_NOMEMORY else SCIP_OKAY).

(** Modelled from the spec: the macro [SCIPfreeMemoryArray(scip, ptr)] of
    the host's headers: it releases the block the pointer variable
    designates and clears the variable; there is nothing to release behind
    a null pointer, and releasing a block that is not live is undefined. *)
Definition SCIPfreeMemoryArray (scip : ptr) (lv : ptr * field) : Comp unit :=
  p ← load_field lv;
  if decide (p = NULL) then mret tt
  else
    w ← get_world;
    match heap w !! p with
    | Some _ =>
        modify (λ w, log (EvFree p) (set_heap (delete p (heap w)) w));;
        store_field lv NULL
    | None => undefined
    end.

(** Modelled from the spec: the macro [SCIP_CALL_ABORT(x)] of the host's
    headers: a failing call "aborts the whole host operation, propagating
    a fatal allocation-failure signal". *)
Definition SCIP_CALL_ABORT (x : Comp SCIP_RETCODE) : Comp unit :=
  rc ← x;
  if decide (rc = SCIP_OKAY) then mret tt else abort rc.

(** ** The class [scip::ObjTable] *)

(** Constructor (objtable.h, lines 64-80): the member initialisers, then
    the two duplications, each under [SCIP_CALL_ABORT]. *)
Definition ObjTable_ctor (this : ptr) (scip name desc : ptr) (position : Z)
    (earlieststage : SCIP_STAGE) : Comp unit :=
  store_obj this (mkObjTable scip NULL NULL position earlieststage);;
  s ← load_scip this;
  n ← strlen name;
  SCIP_CALL_ABORT (SCIPduplicateMemoryArray s (this, F_name) name (n + 1));;
  s ← load_scip this;
  m ← strlen desc;
  SCIP_CALL_ABORT (SCIPduplicateMemoryArray s (this, F_desc) desc (m + 1)).

(** Destructor (objtable.h, lines 83-89). *)
Definition ObjTable_dtor (this : ptr) : Comp unit :=
  s ← load_scip this;
  SCIPfreeMemoryArray s (this, F_name);;
  s ← load_scip this;
  SCIPfreeMemoryArray s (this, F_desc).

(** Modelled from the spec: the signatures behind the host's macros
    [SCIP_DECL_TABLEFREE(x)] and the like: "six hook slots with fixed
    signatures (host handle, registry entry handle, and for output an
    output sink) each returning a success/failure result".  A method also
    receives [this]. *)
Definition hook : Type := ptr → ptr → ptr → Comp SCIP_RETCODE.
Definition output_hook : Type := ptr → ptr → ptr → ptr → Comp SCIP_RETCODE.

(** The five default callbacks (objtable.h, lines 95-134). *)

Definition scip_free : hook := λ this scip table, mret SCIP_OKAY.
Definition scip_init : hook := λ this scip table, mret SCIP_OKAY.
Definition scip_exit : hook := λ this scip table, mret SCIP_OKAY.
Definition scip_initsol : hook := λ this scip table, mret SCIP_OKAY.
Definition scip_exitsol : hook := λ this scip table, mret SCIP_OKAY.

(** ** Objects on the free store

    The header's usage comment (lines 149-166) creates the table with
    [new MyTable(...)] and destroys it with [delete mytable]; [MyTable] is
    taken to add no members of its own, so its construction and destruction
    are those of the base class. *)

(** [new]: storage is obtained, then the constructor runs in it. *)
Definition new_ObjTable (scip name desc : ptr) (position : Z)
    (earlieststage : SCIP_STAGE) : Comp ptr :=
  w ← get_world;
  let q := fresh_in (objs w) in
  modify (log (EvNew q));;
  ObjTable_ctor q scip name desc position earlieststage;;
  mret q.

(** [delete]: the destructor runs, then the storage is released. *)
Definition delete_ObjTable (q : ptr) : Comp unit :=
  if decide (q = NULL) then mret tt
  else
    ObjTable_dtor q;;
    modify (λ w, log (EvDelete q) (set_objs (delete q (objs w)) w)).

(** ** Virtual functions and abstract classes *)

(** A slot of a class's virtual table: a pure virtual function ([= 0]) or
    an implementation. *)
Inductive slot (A : Type) : Type :=
| Pure
| Impl (f : A).
Arguments Pure {A}.
Arguments Impl {A} f.

Record vtable : Type := mkVtable {
  vt_free : slot hook;
  vt_init : slot hook;
  vt_exit : slot hook;
  vt_initsol : slot hook;
  vt_exitsol : slot hook;
  vt_output : slot output_hook
}.

(** The virtual table of [ObjTable] itself (lines 95-140). *)
Definition ObjTable_vtable : vtable :=
  mkVtable (Impl scip_free) (Impl scip_init) (Impl scip_exit)
           (Impl scip_initsol) (Impl scip_exitsol) Pure.

(** What a derived class chooses to override. *)
Record overrides : Type := mkOverrides {
  ov_free : option hook;
  ov_init : option hook;
  ov_exit : option hook;
  ov_initsol : option hook;
  ov_exitsol : option hook;
  ov_output : option output_hook
}.

Definition override {A} (base : slot A) (ov : option A) : slot A :=
  match ov with
  | Some f => Impl f
  | None => base
  end.

Definition derive (base : vtable) (ov : overrides) : vtable :=
  mkVtable (override (vt_free base) (ov_free ov))
           (override (vt_init base) (ov_init ov))
           (override (vt_exit base) (ov_exit ov))
           (override (vt_initsol base) (ov_initsol ov))
           (override (vt_exitsol base) (ov_exitsol ov))
           (override (vt_output base) (ov_output ov)).

Definition bound {A} (s : slot A) : bool :=
  match s with
  | Pure => false
  | Impl _ => true
  end.

(** A class with a pure virtual function is abstract. *)
Definition is_abstract (c : vtable) : bool :=
  negb (bound (vt_free c) && bound (vt_init c) && bound (vt_exit c)
        && bound (vt_initsol c) && bound (vt_exitsol c)
        && bound (vt_output c)).

(** Objects can only be created of a class that is not abstract: the
    creation expression of an abstract class is rejected. *)
Definition instantiate (c : vtable)
  : option (ptr → ptr → ptr → Z → SCIP_STAGE → Comp ptr) :=
  if is_abstract c then None else Some new_ObjTable.

(** ** The registry bridge (objtable.h, lines 167-186)

    The header only declares the three functions; their bodies live in
    objtable.cpp, which is not part of the sources. *)

(** Modelled from the spec: the host's lookup of an entry by "exact string
    match against registered names". *)
Fixpoint find_handle (ts : gmap N SCIP_TABLE) (nm : list byte)
    (hs : list N) : option N :=
  match hs with
  | [] => None
  | t :: hs' =>
      match ts !! t with
      | Some e =>
          if decide (table_name e = nm) then Some t
          else find_handle ts nm hs'
      | None => find_handle ts nm hs'
      end
  end.

(** Modelled from the spec: the host's find-by-name on its own entries;
    the null handle stands for "not found". *)
Definition SCIPfindTable (scip name : ptr) : Comp ptr := λ w,
  match cstr (heap w) name with
  | Some nm =>
      Done (default NULL (find_handle (tables w) nm (registry w !!! scip))) w
  | None => Undefined
  end.

(** Modelled from the spec: find-by-handle "recovers the originally
    registered Adapter Object by reading back the opaque user-data pointer.
    Returns not-found/null if the entry's user-data was never set by this
    bridge". *)
Definition SCIPgetObjTable (scip table : ptr) : Comp ptr := λ w,
  match tables w !! table with
  | Some e =>
      Done (match table_data e with
            | TD_objtable objtable _ => objtable
            | _ => NULL
            end) w
  | None => Undefined
  end.

(** Modelled from the spec: find-by-name "returns the Adapter Object
    reference if present, an explicit not-found sentinel otherwise". *)
Definition SCIPfindObjTable (scip name : ptr) : Comp ptr :=
  t ← SCIPfindTable scip name;
  if decide (t = NULL) then mret NULL else SCIPgetObjTable scip t.

(** Modelled from the spec: register "wraps adapter_object's identity ...
    into the host's plugin-table entry format, passing adapter_object
    itself as the opaque user-data pointer"; it "fails if an entry with the
    same name is already registered (name collision), or if the underlying
    registration storage cannot be allocated". *)
Definition SCIPincludeObjTable (scip objtable : ptr) (deleteobject : bool)
  : Comp SCIP_RETCODE :=
  o ← load_obj objtable;
  t ← SCIPfindTable scip (scip_name_ o);
  if decide (t = NULL) then
    w ← get_world;
    match cstr (heap w) (scip_name_ o), cstr (heap w) (scip_desc_ o) with
    | Some nm, Some ds =>
        if grants (oracle w) then
          let t' := fresh_in (tables w) in
          let e := mkTable nm ds (scip_position_ o) (scip_earlieststage_ o)
                           (TD_objtable objtable deleteobject) in
          modify (λ w,
            set_registry (<[scip := (registry w !!! scip) ++ [t']]> (registry w))
              (set_tables (<[t' := e]> (tables w))
                 (set_oracle (tail (oracle w)) w)));;
          mret SCIP_OKAY
        else
          modify (λ w, set_oracle (tail (oracle w)) w);;
          mret SCIP_NOMEMORY
    | _, _ => undefined
    end
  else mret SCIP_INVALIDDATA.

(** ** Reading a trace *)

Definition allocs (t : list event) : list ptr :=
  omap (λ e, match e with EvAlloc p => Some p | _ => None end) t.

Definition frees (t : list event) : list ptr :=
  omap (λ e, match e with EvFree p => Some p | _ => None end) t.

(** How often block [p] was released in [t]. *)
Definition times_freed (p : ptr) (t : list event) : nat :=
  length (filter (λ x, x = p) (frees t)).

(** Blocks allocated in [t] and not released in it. *)
Definition leaked (t : list event) : list ptr :=
  list_difference (allocs t) (frees t).

(** The default callbacks, as the host may invoke them on an object. *)
Inductive default_hook : Type :=
| H_free | H_init | H_exit | H_initsol | H_exitsol.

Definition run_hook (k : default_hook) : hook :=
  match k with
  | H_free => scip_free
  | H_init => scip_init
  | H_exit => scip_exit
  | H_initsol => scip_initsol
  | H_exitsol => scip_exitsol
  end.

(** A sequence of callbacks on one object; a failing callback is reported
    to the host, which stops. *)
Fixpoint run_hooks (ks : list default_hook) (this scip table : ptr)
  : Comp SCIP_RETCODE :=
  match ks with
  | [] => mret SCIP_OKAY
  | k :: ks' =>
      rc ← run_hook k this scip table;
      if decide (rc = SCIP_OKAY) then run_hooks ks' this scip table
      else mret rc
  end.

(** ** States and events named in the statements below *)

(** The state the constructor leaves when both copies are made. *)
Definition constructed_world (this scip : ptr) (position : Z)
    (earlieststage : SCIP_STAGE) (sn sd : list byte) (w : World) : World :=
  let n := fresh_in (heap w) in
  let h1 := <[n := sn ++ [x00]]> (heap w) in
  let d := fresh_in h1 in
  mkWorld (<[d := sd ++ [x00]]> h1)
          (<[this := mkObjTable scip n d position earlieststage]> (objs w))
          (tables w) (registry w) (tail (tail (oracle w)))
          (trace w ++ [EvAlloc n; EvAlloc d]).

(** The state at the abort when the name copy is denied. *)
Definition name_denied_world (this scip : ptr) (position : Z)
    (earlieststage : SCIP_STAGE) (w : World) : World :=
  mkWorld (heap w)
          (<[this := mkObjTable scip NULL NULL position earlieststage]> (objs w))
          (tables w) (registry w) (tail (oracle w)) (trace w).

(** The state at the abort when the description copy is denied. *)
Definition desc_denied_world (this scip : ptr) (position : Z)
    (earlieststage : SCIP_STAGE) (sn : list byte) (w : World) : World :=
  let n := fresh_in (heap w) in
  mkWorld (<[n := sn ++ [x00]]> (heap w))
          (<[this := mkObjTable scip n NULL position earlieststage]> (objs w))
          (tables w) (registry w) (tail (tail (oracle w)))
          (trace w ++ [EvAlloc n]).

(** Releasing through a pointer variable: nothing behind a null pointer. *)
Definition release (p : ptr) (h : gmap N (list byte)) : gmap N (list byte) :=
  if decide (p = NULL) then h else delete p h.

Definition release_event (p : ptr) : list event :=
  if decide (p = NULL) then [] else [EvFree p].

(** A host with the caller's two strings in memory, and the answers the
    allocator will give. *)
Definition demo_world (answers : list bool) : World :=
  mkWorld {[ 5 := String.list_byte_of_string "gapstat" ++ [x00];
             6 := String.list_byte_of_string "gap statistics" ++ [x00] ]}
          ∅ ∅ ∅ answers [].

Definition outcome_world {A} (r : outcome A) (w0 : World) : World :=
  match r with
  | Done _ w => w
  | Aborted _ w => w
  | Undefined => w0
  end.

(** The world after [new MyTable(scip, "gapstat", "gap statistics", 1000,
    stage)] in [demo_world]. *)
Definition demo_constructed (answers : list bool) : World :=
  outcome_world (new_ObjTable 9 5 6 1000%Z 9%Z (demo_world answers))
                (demo_world answers).

(** A host in which object A ("gapstat") is constructed and included, and
    a second object B of the same name is constructed. *)
Definition demo_two_objects : World :=
  outcome_world
    ((new_ObjTable 9 5 6 1000%Z 9%Z ≫= λ a,
      SCIPincludeObjTable 9 a true;;
      new_ObjTable 9 5 6 500%Z 3%Z) (demo_world []))
    (demo_world []).

Ltac run_comp :=
  cbv [mbind mret Comp_bind Comp_ret get_world modify undefined
       abort load_scip load_field store_field load_obj store_obj
       set_heap set_objs set_tables set_registry set_oracle log];
  simpl.

(** ** Ownership of the string blocks *)

(** Every string field of every live object is null or designates a live
    block, and no block is held through two fields. *)
Definition ownership_inv (w : World) : Prop :=
  (∀ this o f, objs w !! this = Some o →
     read_field f o = NULL ∨ is_Some (heap w !! read_field f o)) ∧
  (∀ this1 this2 o1 o2 f1 f2,
     objs w !! this1 = Some o1 → objs w !! this2 = Some o2 →
     read_field f1 o1 = read_field f2 o2 → read_field f1 o1 ≠ NULL →
     this1 = this2 ∧ f1 = f2).

(** A host whose caller keeps the name in a buffer that goes on after the
    terminator: "gap", NUL, "stat", NUL. *)
Definition demo_long_buffer : World :=
  mkWorld {[ 5 := String.list_byte_of_string "gap" ++ [x00]
                  ++ String.list_byte_of_string "stat" ++ [x00];
             6 := String.list_byte_of_string "d" ++ [x00] ]}
          ∅ ∅ ∅ [] [].

(** Two objects constructed one after the other from the same caller
    strings, at addresses 1 and 2. *)
Definition demo_one_object : World :=
  outcome_world (ObjTable_ctor 1 9 5 6 1000%Z 9%Z (demo_world []))
                (demo_world []).
Definition demo_pair : World :=
  outcome_world (ObjTable_ctor 2 9 5 6 500%Z 3%Z demo_one_object)
                demo_one_object.

(** The first of them included in host 9. *)
Definition demo_included : World :=
  outcome_world (SCIPincludeObjTable 9 1 true demo_one_object)
                demo_one_object.

(** A host whose caller's name buffer has no terminator. *)
Definition demo_unterminated : World :=
  mkWorld {[ 5 := String.list_byte_of_string "gapstat";
             6 := String.list_byte_of_string "d" ++ [x00] ]}
          ∅ ∅ ∅ [] [].

(** * Properties *)

(** ** C strings *)

Lemma cstr_of_take (b s : list byte) :
  cstr_of b = Some s → take (length s + 1) b = s ++ [x00].
Proof.
  revert s. induction b as [|c b IH]; intros s; simpl; [done|].
  case_decide as Hc.
  - intros [= <-]. by subst c.
  - destruct (cstr_of b) as [s'|] eqn:E; simpl; [|done].
    intros [= <-]. simpl. f_equal. by apply IH.
Qed.

Lemma cstr_of_closed (s : list byte) :
  x00 ∉ s → cstr_of (s ++ [x00]) = Some s.
Proof.
  induction s as [|c s IH]; intros Hs.
  - reflexivity.
  - simpl. apply not_elem_of_cons in Hs as [Hc Hs].
    rewrite decide_False by done. by rewrite IH.
Qed.

Lemma cstr_of_no_nul (b s : list byte) :
  cstr_of b = Some s → x00 ∉ s.
Proof.
  revert s. induction b as [|c b IH]; intros s; simpl; [done|].
  case_decide as Hc.
  - intros [= <-]. apply not_elem_of_nil.
  - destruct (cstr_of b) as [s'|] eqn:E; simpl; [|done].
    intros [= <-]. apply not_elem_of_cons. split; [done|]. by apply IH.
Qed.

Lemma cstr_of_length (b s : list byte) :
  cstr_of b = Some s → (length s + 1 ≤ length b)%nat.
Proof.
  intros H. apply cstr_of_take in H.
  apply (f_equal length) in H. rewrite length_take, length_app in H.
  simpl in H. lia.
Qed.

Lemma fresh_in_nonnull {V} (m : gmap N V) : fresh_in m ≠ NULL.
Proof.
  unfold fresh_in. intros H.
  pose proof (is_fresh ({[NULL]} ∪ dom m)) as Hf. set_solver.
Qed.

Lemma fresh_in_fresh {V} (m : gmap N V) : m !! fresh_in m = None.
Proof.
  unfold fresh_in. apply not_elem_of_dom.
  pose proof (is_fresh ({[NULL]} ∪ dom m)) as Hf. set_solver.
Qed.

Lemma cstr_insert_eq (h : gmap N (list byte)) (p : ptr) (s : list byte) :
  x00 ∉ s → cstr (<[p := s ++ [x00]]> h) p = Some s.
Proof.
  intros Hs. unfold cstr. rewrite lookup_insert_eq. simpl.
  by apply cstr_of_closed.
Qed.

Lemma cstr_insert_ne (h : gmap N (list byte)) (p q : ptr) (b : list byte) :
  p ≠ q → cstr (<[p := b]> h) q = cstr h q.
Proof. intros Hne. unfold cstr. by rewrite lookup_insert_ne. Qed.

Lemma cstr_delete_ne (h : gmap N (list byte)) (p q : ptr) :
  p ≠ q → cstr (delete p h) q = cstr h q.
Proof. intros Hne. unfold cstr. by rewrite lookup_delete_ne. Qed.

Lemma cstr_live (h : gmap N (list byte)) (p : ptr) (s : list byte) :
  cstr h p = Some s → is_Some (h !! p).
Proof. unfold cstr. destruct (h !! p); [eauto | done]. Qed.

(** ** The default callbacks *)

Lemma run_hook_okay (k : default_hook) (this scip table : ptr) (w : World) :
  run_hook k this scip table w = Done SCIP_OKAY w.
Proof. by destruct k. Qed.

Lemma run_hooks_okay (ks : list default_hook) (this scip table : ptr)
    (w : World) :
  run_hooks ks this scip table w = Done SCIP_OKAY w.
Proof.
  induction ks as [|k ks IH]; [done|].
  simpl. cbv [mbind Comp_bind]. rewrite run_hook_okay. simpl. exact IH.
Qed.

(** C6.  Each of the five default callbacks, on any arguments and in any
    state, returns [SCIP_OKAY] and leaves the whole state, the object's
    fields included, as it was; so does any sequence of them. *)
Theorem default_hooks_okay_no_effect (this scip table : ptr) (w : World) :
  scip_free this scip table w = Done SCIP_OKAY w ∧
  scip_init this scip table w = Done SCIP_OKAY w ∧
  scip_exit this scip table w = Done SCIP_OKAY w ∧
  scip_initsol this scip table w = Done SCIP_OKAY w ∧
  scip_exitsol this scip table w = Done SCIP_OKAY w ∧
  ∀ ks, run_hooks ks this scip table w = Done SCIP_OKAY w.
Proof.
  do 5 (split; [reflexivity|]).
  intros ks. apply run_hooks_okay.
Qed.

(** ** Running the constructor and the destructor *)

Lemma dup_granted (s this : ptr) (f : field) (src : ptr) (num : nat)
    (o : ObjTable) (b : list byte) (w : World) :
  objs w !! this = Some o →
  heap w !! src = Some b →
  (num ≤ length b)%nat →
  grants (oracle w) = true →
  SCIPduplicateMemoryArray s (this, f) src num w =
  Done SCIP_OKAY
    (mkWorld (<[fresh_in (heap w) := take num b]> (heap w))
             (<[this := write_field f (fresh_in (heap w)) o]> (objs w))
             (tables w) (registry w) (tail (oracle w))
             (trace w ++ [EvAlloc (fresh_in (heap w))])).
Proof.
  intros Ho Hb Hnum Hg.
  unfold SCIPduplicateMemoryArray, host_alloc, copy_bytes. run_comp.
  rewrite Hg. simpl.
  rewrite (decide_False (P := fresh_in (heap w) = NULL))
    by apply fresh_in_nonnull.
  simpl. rewrite lookup_insert_ne.
  2:{ intros E. pose proof (fresh_in_fresh (heap w)) as Hf.
      rewrite E in Hf. congruence. }
  rewrite Hb. rewrite decide_True by done. simpl.
  rewrite Ho. simpl.
  rewrite decide_False by apply fresh_in_nonnull.
  by rewrite insert_insert_eq.
Qed.

Lemma dup_denied (s this : ptr) (f : field) (src : ptr) (num : nat)
    (o : ObjTable) (w : World) :
  objs w !! this = Some o →
  grants (oracle w) = false →
  SCIPduplicateMemoryArray s (this, f) src num w =
  Done SCIP_NOMEMORY
    (mkWorld (heap w) (<[this := write_field f NULL o]> (objs w))
             (tables w) (registry w) (tail (oracle w)) (trace w)).
Proof.
  intros Ho Hg.
  unfold SCIPduplicateMemoryArray, host_alloc. run_comp.
  rewrite Hg. simpl. by rewrite Ho.
Qed.

(** Every run of the constructor, by cases on the two strings and on the
    allocator's two answers. *)
Lemma ctor_run (this scip name desc : ptr) (position : Z)
    (earlieststage : SCIP_STAGE) (w : World) :
  ObjTable_ctor this scip name desc position earlieststage w =
  match cstr (heap w) name with
  | None => Undefined
  | Some sn =>
      if grants (oracle w) then
        match cstr (<[fresh_in (heap w) := sn ++ [x00]]> (heap w)) desc with
        | None => Undefined
        | Some sd =>
            if grants (tail (oracle w)) then
              Done tt (constructed_world this scip position earlieststage
                         sn sd w)
            else
              Aborted SCIP_NOMEMORY
                (desc_denied_world this scip position earlieststage sn w)
        end
      else
        Aborted SCIP_NOMEMORY
          (name_denied_world this scip position earlieststage w)
  end.
Proof.
  unfold ObjTable_ctor, SCIP_CALL_ABORT, strlen.
  cbv [mbind mret Comp_bind Comp_ret load_scip load_obj store_obj modify
       set_objs abort].
  simpl. rewrite lookup_insert_eq. simpl.
  destruct (cstr (heap w) name) as [sn|] eqn:Hn; [|done].
  destruct (cstr_live _ _ _ Hn) as [bn Hbn].
  assert (cstr_of bn = Some sn) as Hcn
    by (unfold cstr in Hn; by rewrite Hbn in Hn).
  pose proof (cstr_of_length _ _ Hcn) as Hln.
  destruct (grants (oracle w)) eqn:Hg1.
  - rewrite (dup_granted _ _ _ _ _
               (mkObjTable scip NULL NULL position earlieststage) bn);
      simpl; [|apply lookup_insert_eq|done|lia|done].
    rewrite lookup_insert_eq. simpl. rewrite insert_insert_eq.
    rewrite (cstr_of_take _ _ Hcn).
    set (n := fresh_in (heap w)).
    set (h1 := <[n := sn ++ [x00]]> (heap w)).
    destruct (cstr h1 desc) as [sd|] eqn:Hd; [|done].
    destruct (cstr_live _ _ _ Hd) as [bd Hbd].
    assert (cstr_of bd = Some sd) as Hcd
      by (unfold cstr in Hd; by rewrite Hbd in Hd).
    pose proof (cstr_of_length _ _ Hcd) as Hld.
    destruct (grants (tail (oracle w))) eqn:Hg2.
    + rewrite (dup_granted _ _ _ _ _
                 (mkObjTable scip n NULL position earlieststage) bd);
        simpl; [|apply lookup_insert_eq|done|lia|done].
      rewrite insert_insert_eq. rewrite (cstr_of_take _ _ Hcd).
      unfold constructed_world. fold n. fold h1.
      by rewrite <- app_assoc.
    + rewrite (dup_denied _ _ _ _ _
                 (mkObjTable scip n NULL position earlieststage));
        simpl; [|apply lookup_insert_eq|done].
      by rewrite insert_insert_eq.
  - rewrite (dup_denied _ _ _ _ _
               (mkObjTable scip NULL NULL position earlieststage));
      simpl; [|apply lookup_insert_eq|done].
    by rewrite insert_insert_eq.
Qed.

Lemma free_run (s this : ptr) (f : field) (o : ObjTable) (w : World) :
  objs w !! this = Some o →
  read_field f o = NULL ∨ is_Some (heap w !! read_field f o) →
  SCIPfreeMemoryArray s (this, f) w =
  Done tt
    (mkWorld (release (read_field f o) (heap w))
             (<[this := write_field f NULL o]> (objs w))
             (tables w) (registry w) (oracle w)
             (trace w ++ release_event (read_field f o))).
Proof.
  intros Ho Hp. unfold SCIPfreeMemoryArray, release, release_event. run_comp.
  rewrite Ho. simpl.
  destruct (decide (read_field f o = NULL)) as [Hnull|Hnn].
  - simpl. rewrite app_nil_r.
    rewrite insert_id; [by destruct w|].
    rewrite Ho. f_equal. destruct o, f; simpl in *; by subst.
  - destruct Hp as [?|[b Hb]]; [done|].
    rewrite Hb. simpl. by rewrite Ho.
Qed.

(** The destructor on an object whose string fields are each null or a live
    block of their own. *)
Lemma dtor_run (this : ptr) (o : ObjTable) (w : World) :
  objs w !! this = Some o →
  scip_name_ o = NULL ∨ is_Some (heap w !! scip_name_ o) →
  scip_desc_ o = NULL ∨ is_Some (heap w !! scip_desc_ o) →
  (scip_name_ o = scip_desc_ o → scip_name_ o = NULL) →
  ObjTable_dtor this w =
  Done tt
    (mkWorld (release (scip_desc_ o) (release (scip_name_ o) (heap w)))
             (<[this := mkObjTable (scip_ o) NULL NULL (scip_position_ o)
                                   (scip_earlieststage_ o)]> (objs w))
             (tables w) (registry w) (oracle w)
             (trace w ++ release_event (scip_name_ o)
                      ++ release_event (scip_desc_ o))).
Proof.
  intros Ho Hn Hd Hnd. unfold ObjTable_dtor.
  cbv [mbind mret Comp_bind Comp_ret load_scip load_obj].
  rewrite Ho. rewrite (free_run _ _ F_name o) by done. simpl.
  rewrite lookup_insert_eq.
  rewrite (free_run _ _ F_desc
             (mkObjTable (scip_ o) NULL (scip_desc_ o) (scip_position_ o)
                         (scip_earlieststage_ o))); simpl.
  - by rewrite insert_insert_eq, <- app_assoc.
  - apply lookup_insert_eq.
  - destruct Hd as [Hd|[b Hb]]; [by left|].
    destruct (decide (scip_desc_ o = NULL)) as [|Hdn]; [by left|].
    right. unfold release. case_decide; [by rewrite Hb|].
    rewrite lookup_delete_ne; [by rewrite Hb|].
    intros E. apply Hdn. rewrite <- E. by apply Hnd.
Qed.

Lemma ctor_done_inv (this scip name desc : ptr) (position : Z)
    (earlieststage : SCIP_STAGE) (w w' : World) :
  ObjTable_ctor this scip name desc position earlieststage w = Done tt w' →
  ∃ sn sd,
    cstr (heap w) name = Some sn ∧
    cstr (<[fresh_in (heap w) := sn ++ [x00]]> (heap w)) desc = Some sd ∧
    grants (oracle w) = true ∧
    grants (tail (oracle w)) = true ∧
    w' = constructed_world this scip position earlieststage sn sd w.
Proof.
  rewrite ctor_run.
  destruct (cstr (heap w) name) as [sn|]; [|done].
  destruct (grants (oracle w)); [|done].
  destruct (cstr _ desc) as [sd|] eqn:Hd; [|done].
  destruct (grants (tail (oracle w))); [|done].
  intros [= <-]. by exists sn, sd.
Qed.

Lemma ctor_aborted_inv (this scip name desc : ptr) (position : Z)
    (earlieststage : SCIP_STAGE) (w w' : World) (rc : SCIP_RETCODE) :
  ObjTable_ctor this scip name desc position earlieststage w = Aborted rc w' →
  rc = SCIP_NOMEMORY ∧
  (w' = name_denied_world this scip position earlieststage w ∨
   ∃ sn, cstr (heap w) name = Some sn ∧
         w' = desc_denied_world this scip position earlieststage sn w).
Proof.
  rewrite ctor_run.
  destruct (cstr (heap w) name) as [sn|]; [|done].
  destruct (grants (oracle w)).
  - destruct (cstr _ desc) as [sd|] eqn:Hd; [|done].
    destruct (grants (tail (oracle w))); [done|].
    intros [= <- <-]. split; [done|]. right. by exists sn.
  - intros [= <- <-]. split; [done|]. by left.
Qed.

(** The two blocks of a constructed object are distinct, not null, and were
    not live before the construction. *)
Lemma constructed_blocks (h : gmap N (list byte)) (sn : list byte) :
  let n := fresh_in h in
  let d := fresh_in (<[n := sn ++ [x00]]> h) in
  n ≠ NULL ∧ d ≠ NULL ∧ n ≠ d ∧ h !! n = None ∧ h !! d = None.
Proof.
  intros n d.
  pose proof (fresh_in_fresh h) as Hn.
  pose proof (fresh_in_fresh (<[n := sn ++ [x00]]> h)) as Hd.
  fold n in Hn. fold d in Hd.
  apply lookup_insert_None in Hd as [Hd Hne].
  split; [apply fresh_in_nonnull|].
  split; [apply fresh_in_nonnull|]. done.
Qed.

(** The destructor on a freshly constructed object. *)
Lemma dtor_constructed (this scip : ptr) (position : Z)
    (earlieststage : SCIP_STAGE) (sn sd : list byte) (w : World) :
  let n := fresh_in (heap w) in
  let d := fresh_in (<[n := sn ++ [x00]]> (heap w)) in
  ObjTable_dtor this
    (constructed_world this scip position earlieststage sn sd w) =
  Done tt
    (mkWorld (heap w)
             (<[this := mkObjTable scip NULL NULL position earlieststage]>
                (objs w))
             (tables w) (registry w) (tail (tail (oracle w)))
             (trace w ++ [EvAlloc n; EvAlloc d; EvFree n; EvFree d])).
Proof.
  intros n d.
  destruct (constructed_blocks (heap w) sn) as (Hn & Hd & Hnd & Hfn & Hfd).
  fold n in Hn, Hnd, Hfn, Hd, Hfd. fold d in Hd, Hnd, Hfd.
  rewrite (dtor_run this (mkObjTable scip n d position earlieststage));
    unfold constructed_world; fold n; fold d; simpl.
  - unfold release, release_event.
    rewrite !decide_False by done.
    rewrite insert_insert_eq.
    rewrite delete_insert_ne by done.
    rewrite (delete_insert_id (heap w) n) by done.
    rewrite (delete_insert_id (heap w) d) by done.
    by rewrite <- !app_assoc.
  - apply lookup_insert_eq.
  - right. rewrite lookup_insert_ne by done. rewrite lookup_insert_eq. eauto.
  - right. rewrite lookup_insert_eq. eauto.
  - done.
Qed.

Lemma new_run (scip name desc : ptr) (position : Z)
    (earlieststage : SCIP_STAGE) (w : World) :
  new_ObjTable scip name desc position earlieststage w =
  match ObjTable_ctor (fresh_in (objs w)) scip name desc position
          earlieststage (log (EvNew (fresh_in (objs w))) w) with
  | Done _ w' => Done (fresh_in (objs w)) w'
  | Aborted rc w' => Aborted rc w'
  | Undefined => Undefined
  end.
Proof. reflexivity. Qed.

(** ** Construction followed by destruction *)

(** The events of one object's life, with two distinct blocks. *)
Lemma life_balanced (q n d : ptr) :
  n ≠ d →
  let life := [EvNew q; EvAlloc n; EvAlloc d;
               EvFree n; EvFree d; EvDelete q] in
  times_freed n life = 1%nat ∧ times_freed d life = 1%nat ∧
  length (allocs life) = length (frees life) ∧
  leaked life = [].
Proof.
  intros Hnd. unfold times_freed, leaked. simpl.
  rewrite (filter_cons_True (λ x, x = n)) by done.
  rewrite (filter_cons_False (λ x, x = n)) by congruence.
  rewrite (filter_cons_False (λ x, x = d)) by done.
  rewrite (filter_cons_True (λ x, x = d)) by done.
  destruct (decide_rel elem_of n [n; d]) as [_|Hx];
    [|destruct Hx; apply list_elem_of_here].
  destruct (decide_rel elem_of d [n; d]) as [_|Hx];
    [|destruct Hx; apply list_elem_of_further, list_elem_of_here].
  done.
Qed.

(** C1.  For every object that [new] constructed successfully, [delete]
    runs the destructor to completion, whichever default callbacks were
    invoked in between; the destructor releases the copy of the name and
    the copy of the description once each, and only then is the object's
    own storage released.  Over the whole life of the object there are as
    many releases as allocations, nothing stays allocated, and the heap and
    the object store are back to what they were. *)
Theorem construct_destruct_balanced (scip name desc : ptr) (position : Z)
    (earlieststage : SCIP_STAGE) (w w1 : World) (q : ptr) :
  new_ObjTable scip name desc position earlieststage w = Done q w1 →
  ∃ n d w2,
    objs w1 !! q = Some (mkObjTable scip n d position earlieststage) ∧
    n ≠ NULL ∧ d ≠ NULL ∧ n ≠ d ∧
    trace w1 = trace w ++ [EvNew q; EvAlloc n; EvAlloc d] ∧
    delete_ObjTable q w1 = Done tt w2 ∧
    (∀ ks table,
       (run_hooks ks q scip table ≫= λ _, delete_ObjTable q) w1
       = Done tt w2) ∧
    trace w2 = trace w1 ++ [EvFree n; EvFree d; EvDelete q] ∧
    (let life := [EvNew q; EvAlloc n; EvAlloc d;
                  EvFree n; EvFree d; EvDelete q] in
     times_freed n life = 1%nat ∧ times_freed d life = 1%nat ∧
     length (allocs life) = length (frees life) ∧
     leaked life = []) ∧
    heap w2 = heap w ∧ objs w2 = objs w.
Proof.
  rewrite new_run. set (q0 := fresh_in (objs w)).
  destruct (ObjTable_ctor _ _ _ _ _ _ _) as [[] w'| |] eqn:Hc; [|done..].
  intros [= <- <-].
  apply ctor_done_inv in Hc as (sn & sd & _ & _ & _ & _ & ->).
  simpl heap in *.
  destruct (constructed_blocks (heap w) sn) as (Hn & Hd & Hnd & Hfn & Hfd).
  set (n := fresh_in (heap w)) in *.
  set (d := fresh_in (<[n := sn ++ [x00]]> (heap w))) in *.
  assert (q0 ≠ NULL) as Hq by apply fresh_in_nonnull.
  pose proof (fresh_in_fresh (objs w)) as Hfq. fold q0 in Hfq.
  assert (∃ w2, delete_ObjTable q0
                  (constructed_world q0 scip position earlieststage sn sd
                     (log (EvNew q0) w)) = Done tt w2 ∧
                trace w2 = trace w ++ [EvNew q0; EvAlloc n; EvAlloc d;
                                       EvFree n; EvFree d; EvDelete q0] ∧
                heap w2 = heap w ∧ objs w2 = objs w)
    as (w2 & Hdel & Htr & Hh & Ho).
  { unfold delete_ObjTable. rewrite decide_False by done.
    cbv [mbind Comp_bind]. rewrite dtor_constructed.
    eexists. split; [reflexivity|]. simpl.
    split; [by rewrite <- !app_assoc|]. split; [done|].
    rewrite delete_insert_eq. by apply delete_id. }
  exists n, d, w2.
  split; [unfold constructed_world; simpl; apply lookup_insert_eq|].
  do 3 (split; [done|]).
  split; [unfold constructed_world; simpl; by rewrite <- app_assoc|].
  split; [done|].
  split.
  { intros ks table. cbv [mbind Comp_bind]. by rewrite run_hooks_okay. }
  split.
  { rewrite Htr. unfold constructed_world. simpl. by rewrite <- !app_assoc. }
  split; [by apply life_balanced | done].
Qed.

Lemma construct_destruct_balanced_witness :
  new_ObjTable 9 5 6 1000%Z 9%Z (demo_world []) = Done 1 (demo_constructed [])
  ∧ ∃ w2, delete_ObjTable 1 (demo_constructed []) = Done tt w2
          ∧ heap w2 = heap (demo_world []).
Proof.
  assert (new_ObjTable 9 5 6 1000%Z 9%Z (demo_world [])
          = Done 1 (demo_constructed [])) as H by (vm_compute; reflexivity).
  split; [exact H|].
  destruct (construct_destruct_balanced _ _ _ _ _ _ _ _ H)
    as (n & d & w2 & _ & _ & _ & _ & _ & Hd & _ & _ & _ & Hh & _).
  exists w2. by split.
Defined.

(** C10.  The destructor releases in one fixed order: first the block of
    [scip_name_], then the block of [scip_desc_].  After its first step the
    name block is gone from the heap while the description block is still
    there; after its second step both are gone, nothing else has left the
    heap, and both pointer fields are cleared. *)
Theorem dtor_frees_name_then_desc (this : ptr) (o : ObjTable) (w : World) :
  objs w !! this = Some o →
  scip_name_ o ≠ NULL → scip_desc_ o ≠ NULL →
  scip_name_ o ≠ scip_desc_ o →
  is_Some (heap w !! scip_name_ o) → is_Some (heap w !! scip_desc_ o) →
  ∃ w1 w',
    SCIPfreeMemoryArray (scip_ o) (this, F_name) w = Done tt w1 ∧
    heap w1 = delete (scip_name_ o) (heap w) ∧
    heap w1 !! scip_name_ o = None ∧
    heap w1 !! scip_desc_ o = heap w !! scip_desc_ o ∧
    trace w1 = trace w ++ [EvFree (scip_name_ o)] ∧
    SCIPfreeMemoryArray (scip_ o) (this, F_desc) w1 = Done tt w' ∧
    ObjTable_dtor this w = Done tt w' ∧
    heap w' = delete (scip_desc_ o) (delete (scip_name_ o) (heap w)) ∧
    heap w' !! scip_name_ o = None ∧ heap w' !! scip_desc_ o = None ∧
    objs w' !! this
    = Some (mkObjTable (scip_ o) NULL NULL (scip_position_ o)
                       (scip_earlieststage_ o)) ∧
    trace w' = trace w ++ [EvFree (scip_name_ o); EvFree (scip_desc_ o)] ∧
    frees (trace w') = frees (trace w) ++ [scip_name_ o; scip_desc_ o].
Proof.
  intros Ho Hn Hd Hnd Hln Hld.
  rewrite (free_run _ this F_name o) by (by try right).
  rewrite (dtor_run this o); [|done|by right|by right|by intros ?].
  simpl. unfold release, release_event. rewrite !decide_False by done.
  do 2 eexists. split; [reflexivity|]. simpl.
  split; [done|].
  split; [apply lookup_delete_eq|].
  split; [by apply lookup_delete_ne|].
  split; [done|].
  split.
  { rewrite (free_run _ this F_desc
               (mkObjTable (scip_ o) NULL (scip_desc_ o) (scip_position_ o)
                           (scip_earlieststage_ o))); simpl.
    - unfold release, release_event. rewrite !decide_False by done.
      by rewrite insert_insert_eq, <- app_assoc.
    - apply lookup_insert_eq.
    - right. by rewrite lookup_delete_ne. }
  split; [done|]. simpl.
  split; [done|].
  split; [by rewrite lookup_delete_ne, lookup_delete_eq|].
  split; [apply lookup_delete_eq|].
  split; [apply lookup_insert_eq|].
  split; [done|].
  unfold frees. by rewrite omap_app.
Qed.

Lemma dtor_frees_name_then_desc_witness :
  ∃ w1 w',
    SCIPfreeMemoryArray 9 (1, F_name) (demo_constructed []) = Done tt w1 ∧
    heap w1 !! 7 = None ∧ is_Some (heap w1 !! 8) ∧
    ObjTable_dtor 1 (demo_constructed []) = Done tt w' ∧
    heap w' !! 7 = None ∧ heap w' !! 8 = None ∧
    trace w' = trace (demo_constructed []) ++ [EvFree 7; EvFree 8].
Proof.
  destruct (dtor_frees_name_then_desc 1 (mkObjTable 9 7 8 1000%Z 9%Z)
              (demo_constructed []))
    as (w1 & w' & Hstep & _ & Hn1 & Hd1 & _ & _ & Hrun & _ & Hn & Hd & _
        & Htr & _);
    [vm_compute; reflexivity | done | done | done
    | vm_compute; eauto | vm_compute; eauto |].
  exists w1, w'. split; [exact Hstep|]. split; [exact Hn1|].
  split; [simpl in Hd1; rewrite Hd1; vm_compute; eauto|].
  split; [exact Hrun|]. split; [exact Hn|]. split; [exact Hd | exact Htr].
Defined.

(** ** Allocation failure in the constructor *)

(** C2.  When the host cannot allocate the copy of the name or the copy of
    the description, the constructor aborts with the allocation-failure
    code and nothing that follows the construction is run; a construction
    that does return has been granted both copies, and its two pointers are
    neither null nor the caller's. *)
Theorem ctor_alloc_failure_aborts (this scip name desc : ptr) (position : Z)
    (earlieststage : SCIP_STAGE) (w : World) :
  valid_cstr (heap w) name → valid_cstr (heap w) desc →
  (grants (oracle w) = false ∨ grants (tail (oracle w)) = false →
   ∃ w', ObjTable_ctor this scip name desc position earlieststage w
           = Aborted SCIP_NOMEMORY w' ∧
         ∀ (B : Type) (k : unit → Comp B),
           (ObjTable_ctor this scip name desc position earlieststage ≫= k) w
           = Aborted SCIP_NOMEMORY w') ∧
  (∀ w', ObjTable_ctor this scip name desc position earlieststage w
           = Done tt w' →
         grants (oracle w) = true ∧ grants (tail (oracle w)) = true ∧
         ∃ o, objs w' !! this = Some o ∧
              scip_name_ o ≠ NULL ∧ scip_desc_ o ≠ NULL ∧
              scip_name_ o ≠ name ∧ scip_desc_ o ≠ desc).
Proof.
  intros [sn Hn] [sd Hd].
  destruct (constructed_blocks (heap w) sn) as (Hnn & Hdn & Hnd & Hfn & Hfd).
  set (n := fresh_in (heap w)) in *.
  set (d := fresh_in (<[n := sn ++ [x00]]> (heap w))) in *.
  assert (n ≠ desc) as Hnd'.
  { intros ->. apply cstr_live in Hd as [b Hb]. congruence. }
  assert (cstr (<[n := sn ++ [x00]]> (heap w)) desc = Some sd) as Hd1
    by (by rewrite cstr_insert_ne).
  split.
  - intros Hdeny.
    assert (∃ w', ObjTable_ctor this scip name desc position earlieststage w
                  = Aborted SCIP_NOMEMORY w') as [w' Hw'].
    { rewrite ctor_run, Hn. fold n. rewrite Hd1.
      destruct (grants (oracle w)); [|eauto].
      destruct (grants (tail (oracle w))); [|eauto].
      by destruct Hdeny. }
    exists w'. split; [done|]. intros B k.
    cbv [mbind Comp_bind]. by rewrite Hw'.
  - intros w' Hdone.
    apply ctor_done_inv in Hdone as (sn' & sd' & Hn' & Hd' & Hg1 & Hg2 & ->).
    rewrite Hn in Hn'. injection Hn' as <-. fold n d.
    split; [done|]. split; [done|].
    exists (mkObjTable scip n d position earlieststage).
    unfold constructed_world. simpl. fold n d.
    split; [apply lookup_insert_eq|]. simpl.
    repeat split; try done.
    + intros E. apply cstr_live in Hn as [b Hb]. congruence.
    + intros E. apply cstr_live in Hd as [b Hb]. congruence.
Qed.

Lemma ctor_alloc_failure_aborts_witness :
  valid_cstr (heap (demo_world [true; false])) 5 ∧
  valid_cstr (heap (demo_world [true; false])) 6 ∧
  grants (tail (oracle (demo_world [true; false]))) = false ∧
  ∃ w', ObjTable_ctor 1 9 5 6 1000%Z 9%Z (demo_world [true; false])
        = Aborted SCIP_NOMEMORY w'.
Proof.
  assert (valid_cstr (heap (demo_world [true; false])) 5) as H5
    by (vm_compute; eauto).
  assert (valid_cstr (heap (demo_world [true; false])) 6) as H6
    by (vm_compute; eauto).
  split; [exact H5|]. split; [exact H6|]. split; [reflexivity|].
  destruct (ctor_alloc_failure_aborts 1 9 5 6 1000%Z 9%Z
              (demo_world [true; false]) H5 H6) as [Habort _].
  destruct (Habort (or_intror eq_refl)) as (w' & Hw' & _).
  by exists w'.
Defined.

(** ** Partially constructed objects *)

(** C3.  Destruction of a partially constructed object, that is, of the
    object as a constructor that could not make one of its copies left it:
    the description pointer is null, and the name pointer is null or the
    one block the constructor allocated.  The destructor runs to completion
    on it and releases exactly what the constructor allocated, once, and
    nothing else: the blocks allocated are gone, every block that was live
    before the construction is still there unchanged, and the heap is the
    heap from before the construction. *)
Theorem partial_object_dtor_releases_allocated (this scip name desc : ptr)
    (position : Z) (earlieststage : SCIP_STAGE) (w w' : World)
    (rc : SCIP_RETCODE) :
  ObjTable_ctor this scip name desc position earlieststage w
    = Aborted rc w' →
  ∃ o got w'',
    objs w' !! this = Some o ∧ scip_desc_ o = NULL ∧
    got = (if decide (scip_name_ o = NULL) then [] else [scip_name_ o]) ∧
    trace w' = trace w ++ (EvAlloc <$> got) ∧
    (∀ p, p ∈ got → heap w !! p = None ∧ is_Some (heap w' !! p)) ∧
    ObjTable_dtor this w' = Done tt w'' ∧
    trace w'' = trace w' ++ (EvFree <$> got) ∧
    (∀ p, p ∈ got → heap w'' !! p = None ∧
                    times_freed p ((EvAlloc <$> got) ++ (EvFree <$> got))
                    = 1%nat) ∧
    leaked ((EvAlloc <$> got) ++ (EvFree <$> got)) = [] ∧
    (∀ p b, heap w !! p = Some b → heap w'' !! p = Some b) ∧
    heap w'' = heap w.
Proof.
  intros Hab.
  apply ctor_aborted_inv in Hab as [-> [-> | (sn & Hn & ->)]].
  - exists (mkObjTable scip NULL NULL position earlieststage), [].
    unfold name_denied_world. simpl.
    rewrite (dtor_run this (mkObjTable scip NULL NULL position earlieststage));
      simpl; [|apply lookup_insert_eq|by left|by left|done].
    eexists. split; [apply lookup_insert_eq|]. do 2 (split; [done|]).
    split; [by rewrite app_nil_r|].
    split; [intros p Hp; by apply elem_of_nil in Hp|].
    split; [reflexivity|]. simpl.
    split; [by rewrite !app_nil_r|].
    split; [intros p Hp; by apply elem_of_nil in Hp|].
    done.
  - destruct (constructed_blocks (heap w) sn) as (Hnn & _ & _ & Hfn & _).
    set (n := fresh_in (heap w)) in *.
    exists (mkObjTable scip n NULL position earlieststage), [n].
    unfold desc_denied_world. fold n. simpl.
    rewrite (dtor_run this (mkObjTable scip n NULL position earlieststage));
      simpl; [|apply lookup_insert_eq|right|by left|done].
    2:{ rewrite lookup_insert_eq. eauto. }
    unfold release, release_event. simpl.
    rewrite !decide_False by done. rewrite app_nil_r.
    rewrite delete_insert_id by done.
    eexists. split; [apply lookup_insert_eq|]. do 3 (split; [done|]).
    split.
    { intros p Hp. apply list_elem_of_singleton in Hp as ->.
      split; [done|]. rewrite lookup_insert_eq. eauto. }
    split; [reflexivity|]. simpl. split; [done|].
    split.
    { intros p Hp. apply list_elem_of_singleton in Hp as ->.
      split; [done|]. unfold times_freed. simpl.
      by rewrite (filter_cons_True (λ x, x = n)) by done. }
    split; [|done].
    unfold leaked. simpl.
    destruct (decide_rel elem_of n [n]) as [_|Hx]; [done|].
    destruct Hx. apply list_elem_of_here.
Qed.

Lemma partial_object_dtor_releases_allocated_witness :
  ∃ w' w'',
    ObjTable_ctor 1 9 5 6 1000%Z 9%Z (demo_world [true; false])
      = Aborted SCIP_NOMEMORY w' ∧
    objs w' !! 1 = Some (mkObjTable 9 7 NULL 1000%Z 9%Z) ∧
    ObjTable_dtor 1 w' = Done tt w'' ∧
    trace w'' = [EvAlloc 7; EvFree 7] ∧
    heap w'' = heap (demo_world [true; false]).
Proof.
  set (w' := outcome_world
               (ObjTable_ctor 1 9 5 6 1000%Z 9%Z (demo_world [true; false]))
               (demo_world [])).
  assert (ObjTable_ctor 1 9 5 6 1000%Z 9%Z (demo_world [true; false])
          = Aborted SCIP_NOMEMORY w') as H by (vm_compute; reflexivity).
  destruct (partial_object_dtor_releases_allocated _ _ _ _ _ _ _ _ _ H)
    as (o & got & w'' & Ho & _ & Hgot & Htr' & _ & Hd & Htr & _ & _ & _ & Hh).
  assert (objs w' !! 1 = Some (mkObjTable 9 7 NULL 1000%Z 9%Z)) as Ho'
    by (vm_compute; reflexivity).
  rewrite Ho' in Ho. injection Ho as <-. simpl in Hgot. subst got.
  exists w', w''. split; [exact H|]. split; [exact Ho'|].
  split; [exact Hd|]. split; [|exact Hh].
  rewrite Htr, Htr'. reflexivity.
Defined.

(** ** The string fields of a constructed object *)

(** C4.  After a successful construction from two valid strings, the
    fields [scip_name_] and [scip_desc_] are not null; they designate two
    distinct blocks that did not exist before the call, hence neither is
    one of the caller's pointers, and the caller's blocks are unchanged;
    the blocks hold the caller's name and description; what the caller
    later does to its own strings (overwriting them or releasing them) does
    not change what the object holds; and the default callbacks, run any
    number of times, leave the fields and the blocks as they are. *)
Theorem ctor_owns_copies (this scip name desc : ptr) (position : Z)
    (earlieststage : SCIP_STAGE) (w w' : World) :
  valid_cstr (heap w) name → valid_cstr (heap w) desc →
  ObjTable_ctor this scip name desc position earlieststage w = Done tt w' →
  ∃ o, objs w' !! this = Some o ∧
    scip_name_ o ≠ NULL ∧ scip_desc_ o ≠ NULL ∧
    cstr (heap w') (scip_name_ o) = cstr (heap w) name ∧
    cstr (heap w') (scip_desc_ o) = cstr (heap w) desc ∧
    heap w !! scip_name_ o = None ∧ heap w !! scip_desc_ o = None ∧
    scip_name_ o ≠ scip_desc_ o ∧
    scip_name_ o ≠ name ∧ scip_name_ o ≠ desc ∧
    scip_desc_ o ≠ name ∧ scip_desc_ o ≠ desc ∧
    (∀ p, is_Some (heap w !! p) → heap w' !! p = heap w !! p) ∧
    (∀ b, cstr (<[name := b]> (heap w')) (scip_name_ o) = cstr (heap w) name ∧
          cstr (<[desc := b]> (heap w')) (scip_desc_ o) = cstr (heap w) desc) ∧
    cstr (delete name (heap w')) (scip_name_ o) = cstr (heap w) name ∧
    cstr (delete desc (heap w')) (scip_desc_ o) = cstr (heap w) desc ∧
    (∀ ks table, run_hooks ks this scip table w' = Done SCIP_OKAY w').
Proof.
  intros [sn Hn] [sd Hd] Hdone.
  apply ctor_done_inv in Hdone as (sn' & sd' & Hn' & Hd' & _ & _ & ->).
  rewrite Hn in Hn'. injection Hn' as <-.
  destruct (constructed_blocks (heap w) sn) as (Hnn & Hdn & Hnd & Hfn & Hfd).
  set (n := fresh_in (heap w)) in *.
  set (d := fresh_in (<[n := sn ++ [x00]]> (heap w))) in *.
  assert (n ≠ name ∧ n ≠ desc ∧ d ≠ name ∧ d ≠ desc) as (Hn1 & Hn2 & Hd1 & Hd2).
  { apply cstr_live in Hn as [bn Hbn]. apply cstr_live in Hd as [bd Hbd].
    repeat split; intros E; congruence. }
  rewrite cstr_insert_ne in Hd' by done.
  rewrite Hd in Hd'. injection Hd' as <-.
  assert (x00 ∉ sn) as Hzn.
  { unfold cstr in Hn. destruct (heap w !! name) as [b|]; [|done].
    by apply (cstr_of_no_nul b). }
  assert (x00 ∉ sd) as Hzd.
  { unfold cstr in Hd. destruct (heap w !! desc) as [b|]; [|done].
    by apply (cstr_of_no_nul b). }
  exists (mkObjTable scip n d position earlieststage).
  unfold constructed_world. fold n d. simpl.
  assert (cstr (<[d := sd ++ [x00]]> (<[n := sn ++ [x00]]> (heap w))) n
          = Some sn) as Hcn.
  { rewrite cstr_insert_ne by done. by apply cstr_insert_eq. }
  assert (cstr (<[d := sd ++ [x00]]> (<[n := sn ++ [x00]]> (heap w))) d
          = Some sd) as Hcd by (by apply cstr_insert_eq).
  split; [apply lookup_insert_eq|].
  do 2 (split; [done|]).
  split; [by rewrite Hcn, Hn|]. split; [by rewrite Hcd, Hd|].
  do 7 (split; [done|]).
  split.
  { intros p [b Hb]. rewrite !lookup_insert_ne; [done|congruence..]. }
  split.
  { intros b. split.
    - by rewrite cstr_insert_ne, Hcn, Hn.
    - by rewrite cstr_insert_ne, Hcd, Hd. }
  split; [by rewrite cstr_delete_ne, Hcn, Hn|].
  split; [by rewrite cstr_delete_ne, Hcd, Hd|].
  intros ks table. apply run_hooks_okay.
Qed.

Lemma ctor_owns_copies_witness :
  ∃ w' o, ObjTable_ctor 1 9 5 6 1000%Z 9%Z (demo_world []) = Done tt w' ∧
          objs w' !! 1 = Some o ∧
          scip_name_ o ≠ NULL ∧ scip_name_ o ≠ 5 ∧
          cstr (heap w') (scip_name_ o) = cstr (heap (demo_world [])) 5.
Proof.
  set (w' := outcome_world
               (ObjTable_ctor 1 9 5 6 1000%Z 9%Z (demo_world []))
               (demo_world [])).
  assert (ObjTable_ctor 1 9 5 6 1000%Z 9%Z (demo_world []) = Done tt w')
    as H by (vm_compute; reflexivity).
  assert (valid_cstr (heap (demo_world [])) 5) as H5 by (vm_compute; eauto).
  assert (valid_cstr (heap (demo_world [])) 6) as H6 by (vm_compute; eauto).
  destruct (ctor_owns_copies _ _ _ _ _ _ _ _ H5 H6 H)
    as (o & Ho & Hnn & _ & Hcn & _ & _ & _ & _ & Hne & _).
  exists w', o. repeat split; assumption.
Defined.

(** ** Position and earliest stage *)

(** C7.  The constructor stores its position and earliest-stage arguments
    as they are; it accepts any other pair of values just as well, so no
    value is checked; and neither the default callbacks nor the destructor
    change the two fields. *)
Theorem position_stage_verbatim (this scip name desc : ptr) (position : Z)
    (earlieststage : SCIP_STAGE) (w w' : World) :
  ObjTable_ctor this scip name desc position earlieststage w = Done tt w' →
  (∃ o, objs w' !! this = Some o ∧
        scip_position_ o = position ∧
        scip_earlieststage_ o = earlieststage) ∧
  (∀ (position' : Z) (earlieststage' : SCIP_STAGE),
     ∃ w'' o', ObjTable_ctor this scip name desc position' earlieststage' w
                 = Done tt w'' ∧
               objs w'' !! this = Some o' ∧
               scip_position_ o' = position' ∧
               scip_earlieststage_ o' = earlieststage') ∧
  (∀ ks table, run_hooks ks this scip table w' = Done SCIP_OKAY w') ∧
  (∃ w'' o'', ObjTable_dtor this w' = Done tt w'' ∧
              objs w'' !! this = Some o'' ∧
              scip_position_ o'' = position ∧
              scip_earlieststage_ o'' = earlieststage).
Proof.
  intros Hdone.
  apply ctor_done_inv in Hdone as (sn & sd & Hn & Hd & Hg1 & Hg2 & ->).
  split.
  { eexists. unfold constructed_world. simpl.
    split; [apply lookup_insert_eq|]. done. }
  split.
  { intros position' earlieststage'.
    exists (constructed_world this scip position' earlieststage' sn sd w).
    eexists. rewrite ctor_run, Hn, Hg1, Hd, Hg2.
    split; [done|]. unfold constructed_world. simpl.
    split; [apply lookup_insert_eq|]. done. }
  split; [intros; apply run_hooks_okay|].
  rewrite dtor_constructed. do 2 eexists.
  split; [reflexivity|]. simpl.
  split; [apply lookup_insert_eq|]. done.
Qed.

Lemma position_stage_verbatim_witness :
  ∃ w' o, ObjTable_ctor 1 9 5 6 (-7)%Z 424242%Z (demo_world []) = Done tt w' ∧
          objs w' !! 1 = Some o ∧
          scip_position_ o = (-7)%Z ∧ scip_earlieststage_ o = 424242%Z.
Proof.
  set (w' := outcome_world
               (ObjTable_ctor 1 9 5 6 (-7)%Z 424242%Z (demo_world []))
               (demo_world [])).
  assert (ObjTable_ctor 1 9 5 6 (-7)%Z 424242%Z (demo_world []) = Done tt w')
    as H by (vm_compute; reflexivity).
  destruct (position_stage_verbatim _ _ _ _ _ _ _ _ H)
    as ((o & Ho & Hp & Hs) & _).
  exists w', o. repeat split; assumption.
Defined.

(** ** The mandatory output callback *)

(** C5.  [ObjTable] itself is abstract; a class derived from it can be
    instantiated exactly when it supplies [scip_output], and then the
    output slot holds the supplied implementation; each of the other five
    slots holds the default unless the derived class overrides it. *)
Theorem output_must_be_supplied (ov : overrides) :
  instantiate ObjTable_vtable = None ∧
  (is_Some (instantiate (derive ObjTable_vtable ov))
   ↔ is_Some (ov_output ov)) ∧
  (∀ new, instantiate (derive ObjTable_vtable ov) = Some new →
     ∃ f, ov_output ov = Some f ∧
          vt_output (derive ObjTable_vtable ov) = Impl f) ∧
  (ov_free ov = None → vt_free (derive ObjTable_vtable ov) = Impl scip_free) ∧
  (ov_init ov = None → vt_init (derive ObjTable_vtable ov) = Impl scip_init) ∧
  (ov_exit ov = None → vt_exit (derive ObjTable_vtable ov) = Impl scip_exit) ∧
  (ov_initsol ov = None →
   vt_initsol (derive ObjTable_vtable ov) = Impl scip_initsol) ∧
  (ov_exitsol ov = None →
   vt_exitsol (derive ObjTable_vtable ov) = Impl scip_exitsol).
Proof.
  split; [reflexivity|].
  assert (is_abstract (derive ObjTable_vtable ov)
          = negb (bool_decide (is_Some (ov_output ov)))) as Habs.
  { destruct ov as [f1 f2 f3 f4 f5 [g|]];
      by destruct f1, f2, f3, f4, f5. }
  split.
  { unfold instantiate. rewrite Habs.
    destruct (ov_output ov) as [g|]; simpl.
    - split; eauto.
    - split; intros [? ?]; done. }
  split.
  { unfold instantiate. rewrite Habs.
    destruct ov as [f1 f2 f3 f4 f5 [g|]]; simpl; [|done].
    intros _ _. by exists g. }
  destruct ov as [f1 f2 f3 f4 f5 g]; simpl.
  repeat split; by intros ->.
Qed.

(** ** The registry bridge *)

Lemma find_table_run (scip name : ptr) (nm : list byte) (w : World) :
  cstr (heap w) name = Some nm →
  SCIPfindTable scip name w =
  Done (default NULL (find_handle (tables w) nm (registry w !!! scip))) w.
Proof. intros H. unfold SCIPfindTable. by rewrite H. Qed.

(** C8.  In a host state where an entry of some name is registered for an
    object, including another object whose name is the same string fails
    with the invalid-data code and changes nothing: the registry and its
    entries are as before, and a lookup of the name still yields the object
    registered first. *)
Theorem include_same_name_rejected (scip objtable obj1 t : ptr)
    (deleteobject del1 : bool) (o : ObjTable) (nm : list byte)
    (e : SCIP_TABLE) (w : World) :
  objs w !! objtable = Some o →
  cstr (heap w) (scip_name_ o) = Some nm →
  find_handle (tables w) nm (registry w !!! scip) = Some t →
  t ≠ NULL →
  tables w !! t = Some e →
  table_data e = TD_objtable obj1 del1 →
  SCIPincludeObjTable scip objtable deleteobject w
    = Done SCIP_INVALIDDATA w ∧
  SCIP_INVALIDDATA ≠ SCIP_OKAY ∧
  (∀ name, cstr (heap w) name = Some nm →
           SCIPfindObjTable scip name w = Done obj1 w).
Proof.
  intros Ho Hnm Hfind Ht He Hdata.
  split; [|split; [done|]].
  - unfold SCIPincludeObjTable. cbv [mbind Comp_bind load_obj].
    rewrite Ho. rewrite (find_table_run _ _ nm) by done.
    rewrite Hfind. simpl. by rewrite decide_False.
  - intros name Hname.
    unfold SCIPfindObjTable. cbv [mbind Comp_bind].
    rewrite (find_table_run _ _ nm) by done.
    rewrite Hfind. simpl. rewrite decide_False by done.
    unfold SCIPgetObjTable. by rewrite He, Hdata.
Qed.

Lemma include_same_name_rejected_witness :
  SCIPincludeObjTable 9 2 false demo_two_objects
    = Done SCIP_INVALIDDATA demo_two_objects ∧
  SCIPfindObjTable 9 5 demo_two_objects = Done 1 demo_two_objects.
Proof.
  destruct (include_same_name_rejected 9 2 1 1 false true
              (mkObjTable 9 9 10 500%Z 3%Z)
              (String.list_byte_of_string "gapstat")
              (mkTable (String.list_byte_of_string "gapstat")
                       (String.list_byte_of_string "gap statistics")
                       1000%Z 9%Z (TD_objtable 1 true))
              demo_two_objects)
    as (Hinc & _ & Hfind);
    [vm_compute; reflexivity | vm_compute; reflexivity
    | vm_compute; reflexivity | done | vm_compute; reflexivity
    | reflexivity |].
  split; [exact Hinc|]. apply Hfind. vm_compute. reflexivity.
Defined.

(** C9.  After a successful inclusion of an object, the entry created for
    it is new, is the last of the host's entries, and [SCIPgetObjTable] on
    it returns the very pointer that was included; on any entry whose user
    data was not set by the bridge, [SCIPgetObjTable] returns null. *)
Theorem get_after_include_roundtrip (scip objtable : ptr)
    (deleteobject : bool) (w w' : World) :
  SCIPincludeObjTable scip objtable deleteobject w = Done SCIP_OKAY w' →
  (∃ t e, t ≠ NULL ∧ tables w !! t = None ∧
          tables w' !! t = Some e ∧
          table_data e = TD_objtable objtable deleteobject ∧
          registry w' !!! scip = (registry w !!! scip) ++ [t] ∧
          SCIPgetObjTable scip t w' = Done objtable w') ∧
  (∀ (w0 : World) (t0 : ptr) (e0 : SCIP_TABLE),
     tables w0 !! t0 = Some e0 →
     (∀ p b, table_data e0 ≠ TD_objtable p b) →
     SCIPgetObjTable scip t0 w0 = Done NULL w0).
Proof.
  intros Hinc. split.
  - unfold SCIPincludeObjTable in Hinc.
    cbv [mbind mret Comp_bind Comp_ret load_obj get_world modify undefined]
      in Hinc.
    destruct (objs w !! objtable) as [o|]; [|done].
    destruct (SCIPfindTable scip (scip_name_ o) w) as [t0 w0| |] eqn:Hf;
      [|done..].
    assert (w0 = w) as ->.
    { unfold SCIPfindTable in Hf. destruct (cstr _ _); congruence. }
    destruct (decide (t0 = NULL)) as [->|]; [|done].
    destruct (cstr (heap w) (scip_name_ o)) as [nm|]; [|done].
    destruct (cstr (heap w) (scip_desc_ o)) as [ds|]; [|done].
    destruct (grants (oracle w)); [|done].
    injection Hinc as <-. simpl.
    exists (fresh_in (tables w)). eexists.
    split; [apply fresh_in_nonnull|].
    split; [apply fresh_in_fresh|].
    split; [apply lookup_insert_eq|].
    split; [reflexivity|].
    split; [apply lookup_total_insert_eq|].
    unfold SCIPgetObjTable. simpl. by rewrite lookup_insert_eq.
  - intros w0 t0 e0 He0 Hforeign. unfold SCIPgetObjTable. rewrite He0.
    destruct (table_data e0) as [|p b|p] eqn:Hd; [done| |done].
    by destruct (Hforeign p b).
Qed.

Lemma get_after_include_roundtrip_witness :
  ∃ w' t, SCIPincludeObjTable 9 1 true (demo_constructed [])
            = Done SCIP_OKAY w' ∧
          SCIPgetObjTable 9 t w' = Done 1 w'.
Proof.
  set (w' := outcome_world
               (SCIPincludeObjTable 9 1 true (demo_constructed []))
               (demo_world [])).
  assert (SCIPincludeObjTable 9 1 true (demo_constructed [])
          = Done SCIP_OKAY w') as H by (vm_compute; reflexivity).
  destruct (get_after_include_roundtrip _ _ _ _ _ H)
    as ((t & e & _ & _ & _ & _ & _ & Hget) & _).
  exists w', t. split; [exact H | exact Hget].
Defined.

(** * Further properties of the constructor and the destructor *)

(** X2.  Whether it returns or aborts, the constructor leaves the host's
    registry and entries, every other object and every block that was live
    before the call as they were; what it logs are allocations only, at
    most two, and the blocks live afterwards are those live before and the
    ones it allocated. *)
Theorem ctor_frame (this scip name desc : ptr) (position : Z)
    (earlieststage : SCIP_STAGE) (w w' : World) :
  ObjTable_ctor this scip name desc position earlieststage w = Done tt w' ∨
  (∃ rc, ObjTable_ctor this scip name desc position earlieststage w
         = Aborted rc w') →
  tables w' = tables w ∧ registry w' = registry w ∧
  (∀ q, q ≠ this → objs w' !! q = objs w !! q) ∧
  (∀ p b, heap w !! p = Some b → heap w' !! p = Some b) ∧
  ∃ new : list ptr,
    trace w' = trace w ++ (EvAlloc <$> new) ∧
    (length new ≤ 2)%nat ∧
    (∀ p, p ∈ new → heap w !! p = None) ∧
    (∀ p, is_Some (heap w' !! p) ↔ is_Some (heap w !! p) ∨ p ∈ new).
Proof.
  intros [Hdone|[rc Hab]].
  - apply ctor_done_inv in Hdone as (sn & sd & Hn & Hd & _ & _ & ->).
    destruct (constructed_blocks (heap w) sn) as (Hnn & Hdn & Hnd & Hfn & Hfd).
    set (n := fresh_in (heap w)) in *.
    set (d := fresh_in (<[n := sn ++ [x00]]> (heap w))) in *.
    unfold constructed_world. fold n d. simpl.
    do 2 (split; [done|]).
    split; [intros q Hq; by rewrite lookup_insert_ne|].
    split.
    { intros p b Hb. rewrite !lookup_insert_ne; [done|congruence..]. }
    exists [n; d]. split; [done|]. split; [simpl; lia|].
    split.
    { intros p Hp. apply elem_of_cons in Hp as [-> | Hp]; [done|].
      apply list_elem_of_singleton in Hp as ->. done. }
    intros p. rewrite !lookup_insert_is_Some, !elem_of_cons, elem_of_nil.
    split.
    + intros [-> | [_ [-> | [_ H]]]]; eauto.
    + intros [[b Hb] | [-> | [-> | []]]].
      * right. split; [congruence|]. right. split; [congruence|eauto].
      * right. split; [done|]. by left.
      * by left.
  - apply ctor_aborted_inv in Hab as [-> [-> | (sn & Hn & ->)]].
    + unfold name_denied_world. simpl.
      do 2 (split; [done|]).
      split; [intros q Hq; by rewrite lookup_insert_ne|].
      split; [done|].
      exists []. simpl. rewrite app_nil_r.
      split; [done|]. split; [lia|].
      split; [intros p Hp; by apply elem_of_nil in Hp|].
      intros p. rewrite elem_of_nil. split; [eauto|]. by intros [H | []].
    + destruct (constructed_blocks (heap w) sn) as (Hnn & _ & _ & Hfn & _).
      set (n := fresh_in (heap w)) in *.
      unfold desc_denied_world. fold n. simpl.
      do 2 (split; [done|]).
      split; [intros q Hq; by rewrite lookup_insert_ne|].
      split.
      { intros p b Hb. rewrite lookup_insert_ne; [done|congruence]. }
      exists [n]. split; [done|]. split; [simpl; lia|].
      split; [intros p Hp; by apply list_elem_of_singleton in Hp as ->|].
      intros p. rewrite lookup_insert_is_Some, list_elem_of_singleton.
      split.
      * intros [-> | [_ H]]; eauto.
      * intros [[b Hb] | ->]; [|by left].
        right. split; [congruence|eauto].
Qed.

Lemma ctor_frame_witness :
  ∃ w', ObjTable_ctor 1 9 5 6 1000%Z 9%Z (demo_world [true; false])
        = Aborted SCIP_NOMEMORY w' ∧
        registry w' = registry (demo_world [true; false]) ∧
        heap w' !! 5 = heap (demo_world [true; false]) !! 5.
Proof.
  set (w' := outcome_world
               (ObjTable_ctor 1 9 5 6 1000%Z 9%Z (demo_world [true; false]))
               (demo_world [])).
  assert (ObjTable_ctor 1 9 5 6 1000%Z 9%Z (demo_world [true; false])
          = Aborted SCIP_NOMEMORY w') as H by (vm_compute; reflexivity).
  destruct (ctor_frame 1 9 5 6 1000%Z 9%Z (demo_world [true; false]) w'
              (or_intror (ex_intro _ SCIP_NOMEMORY H)))
    as (_ & Hreg & _ & Hheap & _).
  exists w'. split; [exact H|]. split; [exact Hreg|].
  apply Hheap. vm_compute. reflexivity.
Defined.

(** X1.  The copies are made with length [strlen + 1]: the block behind
    [scip_name_] is the caller's string followed by one terminator, and
    nothing of what the caller's buffer holds after its first terminator is
    copied; the same for [scip_desc_]. *)
Theorem ctor_copies_up_to_terminator (this scip name desc : ptr)
    (position : Z) (earlieststage : SCIP_STAGE) (w w' : World)
    (bn bd : list byte) :
  heap w !! name = Some bn → heap w !! desc = Some bd →
  ObjTable_ctor this scip name desc position earlieststage w = Done tt w' →
  ∃ o sn sd,
    objs w' !! this = Some o ∧
    cstr_of bn = Some sn ∧ cstr_of bd = Some sd ∧
    heap w' !! scip_name_ o = Some (sn ++ [x00]) ∧
    heap w' !! scip_desc_ o = Some (sd ++ [x00]) ∧
    sn ++ [x00] = take (length sn + 1) bn ∧
    sd ++ [x00] = take (length sd + 1) bd ∧
    (x00 ∉ sn) ∧ (x00 ∉ sd).
Proof.
  intros Hbn Hbd Hdone.
  apply ctor_done_inv in Hdone as (sn & sd & Hn & Hd & _ & _ & ->).
  destruct (constructed_blocks (heap w) sn) as (Hnn & Hdn & Hnd & Hfn & Hfd).
  set (n := fresh_in (heap w)) in *.
  set (d := fresh_in (<[n := sn ++ [x00]]> (heap w))) in *.
  rewrite cstr_insert_ne in Hd by congruence.
  unfold cstr in Hn, Hd. rewrite Hbn in Hn. rewrite Hbd in Hd.
  simpl in Hn, Hd.
  exists (mkObjTable scip n d position earlieststage), sn, sd.
  unfold constructed_world. fold n d. simpl.
  split; [apply lookup_insert_eq|]. do 2 (split; [done|]).
  split; [by rewrite lookup_insert_ne, lookup_insert_eq|].
  split; [by rewrite lookup_insert_eq|].
  split; [by rewrite (cstr_of_take bn)|].
  split; [by rewrite (cstr_of_take bd)|].
  split; [by apply (cstr_of_no_nul bn) | by apply (cstr_of_no_nul bd)].
Qed.

Lemma ctor_copies_up_to_terminator_witness :
  ∃ w' o, ObjTable_ctor 1 9 5 6 0%Z 0%Z demo_long_buffer = Done tt w' ∧
          objs w' !! 1 = Some o ∧
          heap w' !! scip_name_ o
          = Some (String.list_byte_of_string "gap" ++ [x00]).
Proof.
  set (w' := outcome_world (ObjTable_ctor 1 9 5 6 0%Z 0%Z demo_long_buffer)
                           demo_long_buffer).
  assert (ObjTable_ctor 1 9 5 6 0%Z 0%Z demo_long_buffer = Done tt w') as H
    by (vm_compute; reflexivity).
  destruct (ctor_copies_up_to_terminator 1 9 5 6 0%Z 0%Z demo_long_buffer w'
              (String.list_byte_of_string "gap" ++ [x00]
               ++ String.list_byte_of_string "stat" ++ [x00])
              (String.list_byte_of_string "d" ++ [x00]))
    as (o & sn & sd & Ho & Hsn & _ & Hcopy & _);
    [vm_compute; reflexivity | vm_compute; reflexivity | exact H |].
  exists w', o. split; [exact H|]. split; [exact Ho|].
  rewrite Hcopy. vm_compute in Hsn. by injection Hsn as <-.
Defined.

(** X3.  The constructor checks neither argument: a name that is not a
    terminated string (a null or dangling pointer, a buffer without
    terminator) makes the construction undefined, and so does, once the
    name has been copied, a description that is null or an unterminated
    buffer. *)
Theorem ctor_unreadable_string_undefined (this scip name desc : ptr)
    (position : Z) (earlieststage : SCIP_STAGE) (w : World) :
  cstr (heap w) name = None ∨
  (grants (oracle w) = true ∧ cstr (heap w) desc = None ∧
   (desc = NULL ∨ is_Some (heap w !! desc))) →
  ObjTable_ctor this scip name desc position earlieststage w = Undefined.
Proof.
  intros H. rewrite ctor_run.
  destruct (cstr (heap w) name) as [sn|] eqn:Hn; [|done].
  destruct H as [|(Hg & Hd & Hlive)]; [done|].
  rewrite Hg.
  destruct (constructed_blocks (heap w) sn) as (Hnn & _ & _ & Hfn & _).
  rewrite cstr_insert_ne; [by rewrite Hd|].
  destruct Hlive as [-> | [b Hb]]; [done|congruence].
Qed.

Lemma ctor_unreadable_string_undefined_witness :
  ObjTable_ctor 1 9 NULL 6 0%Z 0%Z (demo_world []) = Undefined ∧
  ObjTable_ctor 1 9 5 6 0%Z 0%Z demo_unterminated = Undefined ∧
  ObjTable_ctor 1 9 6 5 0%Z 0%Z demo_unterminated = Undefined.
Proof.
  split; [|split].
  - apply ctor_unreadable_string_undefined. left. vm_compute. reflexivity.
  - apply ctor_unreadable_string_undefined. left. vm_compute. reflexivity.
  - apply ctor_unreadable_string_undefined. right.
    split; [reflexivity|]. split; [vm_compute; reflexivity|].
    right. vm_compute. eauto.
Defined.

(** X4.  The name is copied first: when that copy is denied the
    constructor aborts at once, whatever the description pointer is (it is
    never read), with no block allocated and the heap as it was. *)
Theorem ctor_name_denied_skips_desc (this scip name : ptr) (position : Z)
    (earlieststage : SCIP_STAGE) (w : World) :
  valid_cstr (heap w) name → grants (oracle w) = false →
  ∃ w', (∀ desc, ObjTable_ctor this scip name desc position earlieststage w
                 = Aborted SCIP_NOMEMORY w') ∧
        heap w' = heap w ∧ trace w' = trace w ∧
        objs w' !! this
        = Some (mkObjTable scip NULL NULL position earlieststage).
Proof.
  intros [sn Hn] Hg.
  exists (name_denied_world this scip position earlieststage w).
  split; [intros desc; by rewrite ctor_run, Hn, Hg|].
  unfold name_denied_world. simpl. do 2 (split; [done|]).
  apply lookup_insert_eq.
Qed.

Lemma ctor_name_denied_skips_desc_witness :
  ∃ w', ObjTable_ctor 1 9 5 NULL 0%Z 0%Z (demo_world [false])
        = Aborted SCIP_NOMEMORY w' ∧
        ObjTable_ctor 1 9 5 6 0%Z 0%Z (demo_world [false])
        = Aborted SCIP_NOMEMORY w'.
Proof.
  destruct (ctor_name_denied_skips_desc 1 9 5 0%Z 0%Z (demo_world [false]))
    as (w' & Hab & _); [vm_compute; eauto | reflexivity |].
  exists w'. split; apply Hab.
Defined.

(** X5.  The host handle is only stored: with any other handle, the null
    one included, the constructor succeeds just the same, with the same
    heap and the same trace, and the object differs in [scip_] alone. *)
Theorem ctor_ignores_host_handle (this scip scip' name desc : ptr)
    (position : Z) (earlieststage : SCIP_STAGE) (w w' : World) :
  ObjTable_ctor this scip name desc position earlieststage w = Done tt w' →
  ∃ w'' o,
    ObjTable_ctor this scip' name desc position earlieststage w
      = Done tt w'' ∧
    heap w'' = heap w' ∧ trace w'' = trace w' ∧
    objs w' !! this = Some o ∧ scip_ o = scip ∧
    objs w'' !! this
    = Some (mkObjTable scip' (scip_name_ o) (scip_desc_ o)
                       (scip_position_ o) (scip_earlieststage_ o)).
Proof.
  intros Hdone.
  apply ctor_done_inv in Hdone as (sn & sd & Hn & Hd & Hg1 & Hg2 & ->).
  exists (constructed_world this scip' position earlieststage sn sd w).
  eexists. rewrite ctor_run, Hn, Hg1, Hd, Hg2.
  split; [done|]. unfold constructed_world. simpl.
  do 2 (split; [done|]).
  split; [apply lookup_insert_eq|]. simpl. split; [done|].
  apply lookup_insert_eq.
Qed.

Lemma ctor_ignores_host_handle_witness :
  ∃ w' w'', ObjTable_ctor 1 9 5 6 0%Z 0%Z (demo_world []) = Done tt w' ∧
            ObjTable_ctor 1 NULL 5 6 0%Z 0%Z (demo_world []) = Done tt w'' ∧
            heap w'' = heap w'.
Proof.
  set (w' := outcome_world (ObjTable_ctor 1 9 5 6 0%Z 0%Z (demo_world []))
                           (demo_world [])).
  assert (ObjTable_ctor 1 9 5 6 0%Z 0%Z (demo_world []) = Done tt w') as H
    by (vm_compute; reflexivity).
  destruct (ctor_ignores_host_handle 1 9 NULL 5 6 0%Z 0%Z (demo_world []) w' H)
    as (w'' & o & H' & Hh & _).
  exists w', w''. split; [exact H|]. split; [exact H' | exact Hh].
Defined.

(** ** The ownership invariant *)

Lemma read_field_nulls (f : field) (s : ptr) (z : Z) (st : SCIP_STAGE) :
  read_field f (mkObjTable s NULL NULL z st) = NULL.
Proof. by destruct f. Qed.

(** Storing an object whose string fields are null or blocks that were not
    live before, over a heap that only grew, keeps the invariant. *)
Lemma ownership_inv_store (w w' : World) (this : ptr) (o' : ObjTable) :
  ownership_inv w →
  objs w' = <[this := o']> (objs w) →
  (∀ p, is_Some (heap w !! p) → is_Some (heap w' !! p)) →
  (∀ f, read_field f o' = NULL ∨
        (is_Some (heap w' !! read_field f o') ∧
         heap w !! read_field f o' = None)) →
  (scip_name_ o' = scip_desc_ o' → scip_name_ o' = NULL) →
  ownership_inv w'.
Proof.
  intros [Hlive Hsep] Hobjs Hgrow Hnew Hnd. split.
  - intros q o f. rewrite Hobjs.
    destruct (decide (this = q)) as [<-|Hq].
    + rewrite lookup_insert_eq. intros [= <-].
      destruct (Hnew f) as [?|[? _]]; eauto.
    + rewrite lookup_insert_ne by done. intros Ho.
      destruct (Hlive q o f Ho) as [?|?]; eauto.
  - intros q1 q2 o1 o2 f1 f2. rewrite Hobjs.
    destruct (decide (this = q1)) as [<-|Hq1];
      destruct (decide (this = q2)) as [<-|Hq2];
      rewrite ?lookup_insert_eq, ?lookup_insert_ne by done.
    + intros [= <-] [= <-] Heq Hnn. split; [done|].
      destruct f1, f2; simpl in *; try done.
      * by destruct Hnn; apply Hnd.
      * destruct Hnn. rewrite Heq. by apply Hnd.
    + intros [= <-] Ho2 Heq Hnn. exfalso.
      destruct (Hnew f1) as [?|[_ Hfresh]]; [done|].
      destruct (Hlive q2 o2 f2 Ho2) as [E|[b Hb]]; [congruence|].
      rewrite Heq in Hfresh. congruence.
    + intros Ho1 [= <-] Heq Hnn. exfalso.
      destruct (Hnew f2) as [?|[_ Hfresh]]; [congruence|].
      destruct (Hlive q1 o1 f1 Ho1) as [E|[b Hb]]; [congruence|].
      rewrite <- Heq in Hfresh. congruence.
    + intros Ho1 Ho2. by apply Hsep.
Qed.

Lemma ownership_inv_ctor_done (this scip name desc : ptr) (position : Z)
    (earlieststage : SCIP_STAGE) (w w' : World) :
  ownership_inv w →
  ObjTable_ctor this scip name desc position earlieststage w = Done tt w' →
  ownership_inv w'.
Proof.
  intros Hinv Hdone.
  apply ctor_done_inv in Hdone as (sn & sd & _ & _ & _ & _ & ->).
  destruct (constructed_blocks (heap w) sn) as (Hnn & Hdn & Hnd & Hfn & Hfd).
  set (n := fresh_in (heap w)) in *.
  set (d := fresh_in (<[n := sn ++ [x00]]> (heap w))) in *.
  apply (ownership_inv_store w _ this
           (mkObjTable scip n d position earlieststage)); try done.
  - intros p [b Hb]. unfold constructed_world. fold n d. simpl.
    rewrite !lookup_insert_ne by congruence. eauto.
  - unfold constructed_world. fold n d.
    intros [|]; simpl; right; (split; [|done]).
    + rewrite lookup_insert_ne, lookup_insert_eq by done. eauto.
    + rewrite lookup_insert_eq. eauto.
Qed.

(** X6.  The constructor keeps the ownership invariant, on its return and
    at its abort alike, even over storage that already held an object: the
    blocks it hands to the new object are held by no other field. *)
Theorem ctor_keeps_ownership (this scip name desc : ptr) (position : Z)
    (earlieststage : SCIP_STAGE) (w w' : World) :
  ownership_inv w →
  ObjTable_ctor this scip name desc position earlieststage w = Done tt w' ∨
  (∃ rc, ObjTable_ctor this scip name desc position earlieststage w
         = Aborted rc w') →
  ownership_inv w'.
Proof.
  intros Hinv [Hdone|[rc Hab]].
  - by apply ownership_inv_ctor_done in Hdone.
  - apply ctor_aborted_inv in Hab as [-> [-> | (sn & _ & ->)]].
    + apply (ownership_inv_store w _ this
               (mkObjTable scip NULL NULL position earlieststage)); try done.
      intros f. left. apply read_field_nulls.
    + destruct (constructed_blocks (heap w) sn) as (Hnn & _ & _ & Hfn & _).
      set (n := fresh_in (heap w)) in *.
      apply (ownership_inv_store w _ this
               (mkObjTable scip n NULL position earlieststage)); try done.
      * intros p [b Hb]. unfold desc_denied_world. fold n. simpl.
        rewrite lookup_insert_ne by congruence. eauto.
      * unfold desc_denied_world. fold n.
        intros [|]; simpl; [right|by left].
        split; [|done]. rewrite lookup_insert_eq. eauto.
Qed.

Lemma ownership_inv_no_objects (w : World) : objs w = ∅ → ownership_inv w.
Proof.
  intros He. split.
  - intros q o f. by rewrite He, lookup_empty.
  - intros q1 q2 o1 o2 f1 f2. by rewrite He, lookup_empty.
Qed.

Lemma ctor_keeps_ownership_witness :
  ownership_inv (demo_world []) ∧
  ∃ w', ObjTable_ctor 1 9 5 6 1000%Z 9%Z (demo_world []) = Done tt w' ∧
        ownership_inv w'.
Proof.
  assert (ownership_inv (demo_world [])) as Hinv
    by (by apply ownership_inv_no_objects).
  split; [exact Hinv|].
  set (w' := outcome_world
               (ObjTable_ctor 1 9 5 6 1000%Z 9%Z (demo_world []))
               (demo_world [])).
  assert (ObjTable_ctor 1 9 5 6 1000%Z 9%Z (demo_world []) = Done tt w')
    as H by (vm_compute; reflexivity).
  exists w'. split; [exact H|].
  exact (ctor_keeps_ownership 1 9 5 6 1000%Z 9%Z (demo_world []) w'
           Hinv (or_introl H)).
Defined.

(** Under the invariant the destructor of a live object can run. *)
Lemma ownership_inv_dtor_run (this : ptr) (o : ObjTable) (w : World) :
  ownership_inv w → objs w !! this = Some o →
  ObjTable_dtor this w =
  Done tt
    (mkWorld (release (scip_desc_ o) (release (scip_name_ o) (heap w)))
             (<[this := mkObjTable (scip_ o) NULL NULL (scip_position_ o)
                                   (scip_earlieststage_ o)]> (objs w))
             (tables w) (registry w) (oracle w)
             (trace w ++ release_event (scip_name_ o)
                      ++ release_event (scip_desc_ o))).
Proof.
  intros [Hlive Hsep] Ho. apply dtor_run; [done|..].
  - apply (Hlive this o F_name Ho).
  - apply (Hlive this o F_desc Ho).
  - intros Heq. destruct (decide (scip_name_ o = NULL)) as [|Hnn]; [done|].
    by destruct (Hsep this this o o F_name F_desc Ho Ho Heq Hnn) as [_ ?].
Qed.

Lemma release_lookup_ne (p q : ptr) (h : gmap N (list byte)) :
  p ≠ q → release p h !! q = h !! q.
Proof.
  intros Hne. unfold release. case_decide; [done|].
  by apply lookup_delete_ne.
Qed.

Lemma release_lookup_eq (p : ptr) (h : gmap N (list byte)) :
  p ≠ NULL → release p h !! p = None.
Proof.
  intros Hnn. unfold release. rewrite decide_False by done.
  apply lookup_delete_eq.
Qed.

(** X7.  In a state that satisfies the ownership invariant, the destructor
    of any live object runs to completion, never releasing a block that is
    not live or one that another object holds, and the invariant holds
    again afterwards: objects can be destroyed in any order. *)
Theorem dtor_keeps_ownership (this : ptr) (o : ObjTable) (w : World) :
  ownership_inv w → objs w !! this = Some o →
  ∃ w', ObjTable_dtor this w = Done tt w' ∧ ownership_inv w' ∧
        ∀ q o' f, q ≠ this → objs w !! q = Some o' →
                  objs w' !! q = Some o' ∧
                  heap w' !! read_field f o' = heap w !! read_field f o'.
Proof.
  intros Hinv Ho. rewrite (ownership_inv_dtor_run this o) by done.
  destruct Hinv as [Hlive Hsep].
  eexists. split; [reflexivity|]. simpl.
  assert (∀ q o' f, q ≠ this → objs w !! q = Some o' →
            release (scip_desc_ o) (release (scip_name_ o) (heap w))
              !! read_field f o' = heap w !! read_field f o') as Hkeep.
  { intros q o' f Hq Ho'.
    destruct (decide (read_field f o' = NULL)) as [Hnull|Hnn].
    - rewrite Hnull. unfold release. repeat case_decide; try done;
        rewrite ?lookup_delete_ne by congruence; done.
    - rewrite !release_lookup_ne; [done|..].
      + intros E. symmetry in E.
        by destruct (Hsep q this o' o f F_name Ho' Ho E Hnn) as [? _].
      + intros E. symmetry in E.
        by destruct (Hsep q this o' o f F_desc Ho' Ho E Hnn) as [? _]. }
  split; [split|].
  - simpl. intros q o' f.
    destruct (decide (this = q)) as [<-|Hq].
    + rewrite lookup_insert_eq. intros [= <-]. left. apply read_field_nulls.
    + rewrite lookup_insert_ne by done. intros Ho'.
      rewrite (Hkeep q o' f) by done. by apply (Hlive q).
  - simpl. intros q1 q2 o1 o2 f1 f2.
    destruct (decide (this = q1)) as [<-|Hq1].
    { rewrite lookup_insert_eq. intros [= <-] _ _ Hnn.
      by rewrite read_field_nulls in Hnn. }
    destruct (decide (this = q2)) as [<-|Hq2].
    { rewrite lookup_insert_eq. intros _ [= <-] Heq Hnn.
      by rewrite Heq, read_field_nulls in Hnn. }
    rewrite !lookup_insert_ne by done. apply Hsep.
  - intros q o' f Hq Ho'. simpl. rewrite lookup_insert_ne by done.
    split; [done|]. by apply (Hkeep q).
Qed.

Lemma demo_pair_ownership : ownership_inv demo_pair.
Proof.
  apply (ownership_inv_ctor_done 2 9 5 6 500%Z 3%Z demo_one_object);
    [|vm_compute; reflexivity].
  apply (ownership_inv_ctor_done 1 9 5 6 1000%Z 9%Z (demo_world []));
    [|vm_compute; reflexivity].
  by apply ownership_inv_no_objects.
Qed.

Lemma dtor_keeps_ownership_witness :
  ∃ w', ObjTable_dtor 1 demo_pair = Done tt w' ∧ ownership_inv w' ∧
        objs w' !! 2 = Some (mkObjTable 9 9 10 500%Z 3%Z) ∧
        heap w' !! 9 = heap demo_pair !! 9.
Proof.
  destruct (dtor_keeps_ownership 1 (mkObjTable 9 7 8 1000%Z 9%Z) demo_pair
              demo_pair_ownership)
    as (w' & Hrun & Hinv & Hother); [vm_compute; reflexivity|].
  exists w'. split; [exact Hrun|]. split; [exact Hinv|].
  destruct (Hother 2 (mkObjTable 9 9 10 500%Z 3%Z) F_name)
    as [Ho Hh]; [done | vm_compute; reflexivity |].
  split; [exact Ho | exact Hh].
Defined.

(** X8.  The destructor of an object that holds two blocks removes these
    two blocks and nothing else: every other block, the caller's own
    strings among them, every other object, the registry and the
    allocator's pending answers are untouched, and the object's own storage
    stays in place (releasing it is left to [delete]). *)
Theorem dtor_frame (this : ptr) (o : ObjTable) (w : World) :
  objs w !! this = Some o →
  scip_name_ o ≠ NULL → scip_desc_ o ≠ NULL →
  scip_name_ o ≠ scip_desc_ o →
  is_Some (heap w !! scip_name_ o) → is_Some (heap w !! scip_desc_ o) →
  ∃ w', ObjTable_dtor this w = Done tt w' ∧
        heap w' !! scip_name_ o = None ∧ heap w' !! scip_desc_ o = None ∧
        (∀ p, p ≠ scip_name_ o → p ≠ scip_desc_ o →
              heap w' !! p = heap w !! p) ∧
        (∀ q, q ≠ this → objs w' !! q = objs w !! q) ∧
        is_Some (objs w' !! this) ∧
        tables w' = tables w ∧ registry w' = registry w ∧
        oracle w' = oracle w.
Proof.
  intros Ho Hn Hd Hnd Hln Hld.
  rewrite (dtor_run this o); [|done|by right|by right|by intros ?].
  eexists. split; [reflexivity|]. simpl.
  split; [by rewrite release_lookup_ne, release_lookup_eq|].
  split; [by rewrite release_lookup_eq|].
  split; [intros p Hp1 Hp2; by rewrite !release_lookup_ne|].
  split; [intros q Hq; by rewrite lookup_insert_ne|].
  split; [rewrite lookup_insert_eq; eauto|done].
Qed.

Lemma dtor_frame_witness :
  ∃ w', ObjTable_dtor 1 demo_pair = Done tt w' ∧
        heap w' !! 7 = None ∧
        heap w' !! 5 = heap demo_pair !! 5 ∧
        objs w' !! 2 = objs demo_pair !! 2.
Proof.
  destruct (dtor_frame 1 (mkObjTable 9 7 8 1000%Z 9%Z) demo_pair)
    as (w' & Hrun & Hn & _ & Hheap & Hobjs & _);
    [vm_compute; reflexivity | done | done | done
    | vm_compute; eauto | vm_compute; eauto |].
  exists w'. split; [exact Hrun|]. split; [exact Hn|].
  split; [by apply Hheap | by apply Hobjs].
Defined.

(** X9.  Two objects constructed from the same caller strings share
    nothing: their four blocks are pairwise distinct; destroying the first
    leaves the second's name and description as they were; destroying the
    second as well brings the heap back to what it was before either was
    constructed. *)
Theorem two_objects_independent (this1 this2 scip name desc : ptr)
    (pos1 pos2 : Z) (st1 st2 : SCIP_STAGE) (w w1 w2 : World) :
  this1 ≠ this2 →
  valid_cstr (heap w) name → valid_cstr (heap w) desc →
  ObjTable_ctor this1 scip name desc pos1 st1 w = Done tt w1 →
  ObjTable_ctor this2 scip name desc pos2 st2 w1 = Done tt w2 →
  ∃ o1 o2 w3 w4,
    objs w2 !! this1 = Some o1 ∧ objs w2 !! this2 = Some o2 ∧
    NoDup [scip_name_ o1; scip_desc_ o1; scip_name_ o2; scip_desc_ o2] ∧
    ObjTable_dtor this1 w2 = Done tt w3 ∧
    cstr (heap w3) (scip_name_ o2) = cstr (heap w) name ∧
    cstr (heap w3) (scip_desc_ o2) = cstr (heap w) desc ∧
    ObjTable_dtor this2 w3 = Done tt w4 ∧
    heap w4 = heap w.
Proof.
  intros Hthis [sn Hn] [sd Hd] H1 H2.
  apply ctor_done_inv in H1 as (sn1 & sd1 & Hn1 & Hd1 & _ & _ & ->).
  rewrite Hn in Hn1. injection Hn1 as <-.
  destruct (constructed_blocks (heap w) sn) as (Hn1n & Hd1n & Hnd1 & Hfn1 & Hfd1).
  set (n1 := fresh_in (heap w)) in *.
  set (d1 := fresh_in (<[n1 := sn ++ [x00]]> (heap w))) in *.
  assert (n1 ≠ name ∧ n1 ≠ desc ∧ d1 ≠ name ∧ d1 ≠ desc)
    as (Hn1a & Hn1b & Hd1a & Hd1b).
  { apply cstr_live in Hn as [bn Hbn]. apply cstr_live in Hd as [bd Hbd].
    repeat split; intros E; congruence. }
  rewrite cstr_insert_ne in Hd1 by done.
  rewrite Hd in Hd1. injection Hd1 as <-.
  set (h1 := <[d1 := sd ++ [x00]]> (<[n1 := sn ++ [x00]]> (heap w))).
  apply ctor_done_inv in H2 as (sn2 & sd2 & Hn2 & Hd2 & _ & _ & ->).
  unfold constructed_world in Hn2, Hd2 |- *. fold n1 d1 h1 in Hn2, Hd2 |- *.
  simpl in Hn2, Hd2 |- *.
  unfold h1 in Hn2. rewrite !cstr_insert_ne in Hn2 by done.
  rewrite Hn in Hn2. injection Hn2 as <-.
  destruct (constructed_blocks h1 sn) as (Hn2n & Hd2n & Hnd2 & Hfn2 & Hfd2).
  set (n2 := fresh_in h1) in *.
  set (d2 := fresh_in (<[n2 := sn ++ [x00]]> h1)) in *.
  unfold h1 in Hfn2, Hfd2.
  apply lookup_insert_None in Hfn2 as [Hfn2 Hd1n2].
  apply lookup_insert_None in Hfn2 as [Hfn2 Hn1n2].
  apply lookup_insert_None in Hfd2 as [Hfd2 Hd1d2].
  apply lookup_insert_None in Hfd2 as [Hfd2 Hn1d2].
  assert (n2 ≠ desc) as Hn2b.
  { apply cstr_live in Hd as [bd Hbd]. congruence. }
  rewrite cstr_insert_ne in Hd2 by done.
  unfold h1 in Hd2. rewrite !cstr_insert_ne in Hd2 by done.
  rewrite Hd in Hd2. injection Hd2 as <-.
  assert (x00 ∉ sn) as Hzn.
  { unfold cstr in Hn. destruct (heap w !! name) as [b|]; [|done].
    by apply (cstr_of_no_nul b). }
  assert (x00 ∉ sd) as Hzd.
  { unfold cstr in Hd. destruct (heap w !! desc) as [b|]; [|done].
    by apply (cstr_of_no_nul b). }
  exists (mkObjTable scip n1 d1 pos1 st1), (mkObjTable scip n2 d2 pos2 st2).
  do 2 eexists.
  split; [by rewrite lookup_insert_ne, lookup_insert_eq|].
  split; [apply lookup_insert_eq|]. simpl.
  split.
  { rewrite !NoDup_cons, !not_elem_of_cons.
    repeat split; first [done | apply not_elem_of_nil | apply NoDup_nil_2]. }
  split.
  { rewrite (dtor_run this1 (mkObjTable scip n1 d1 pos1 st1)); simpl;
      [reflexivity | by rewrite lookup_insert_ne, lookup_insert_eq
      | right | right | done].
    - unfold h1. rewrite !lookup_insert_ne by done.
      rewrite lookup_insert_eq. eauto.
    - unfold h1. rewrite !lookup_insert_ne by done.
      rewrite lookup_insert_eq. eauto. }
  simpl. unfold release. rewrite !decide_False by done.
  split.
  { rewrite !cstr_delete_ne by done.
    rewrite cstr_insert_ne by done. rewrite cstr_insert_eq by done.
    by rewrite Hn. }
  split.
  { rewrite !cstr_delete_ne by done.
    rewrite cstr_insert_eq by done. by rewrite Hd. }
  split.
  { rewrite (dtor_run this2 (mkObjTable scip n2 d2 pos2 st2)); simpl;
      [reflexivity | by rewrite lookup_insert_ne, lookup_insert_eq
      | right | right | done].
    - rewrite !lookup_delete_ne by done.
      rewrite lookup_insert_ne, lookup_insert_eq by done. eauto.
    - rewrite !lookup_delete_ne by done. rewrite lookup_insert_eq. eauto. }
  simpl. unfold release. rewrite !decide_False by done.
  apply map_eq. intros p. unfold h1.
  rewrite !lookup_delete, !lookup_insert.
  repeat case_decide; subst; congruence.
Qed.

Lemma two_objects_independent_witness :
  ∃ w3 w4, ObjTable_dtor 1 demo_pair = Done tt w3 ∧
           cstr (heap w3) 9 = cstr (heap (demo_world [])) 5 ∧
           ObjTable_dtor 2 w3 = Done tt w4 ∧
           heap w4 = heap (demo_world []).
Proof.
  destruct (two_objects_independent 1 2 9 5 6 1000%Z 500%Z 9%Z 3%Z
              (demo_world []) demo_one_object demo_pair)
    as (o1 & o2 & w3 & w4 & _ & Ho2 & _ & Hd1 & Hname & _ & Hd2 & Hheap);
    [done | vm_compute; eauto | vm_compute; eauto
    | vm_compute; reflexivity | vm_compute; reflexivity |].
  exists w3, w4. split; [exact Hd1|].
  assert (o2 = mkObjTable 9 9 10 500%Z 3%Z) as ->.
  { assert (objs demo_pair !! 2 = Some (mkObjTable 9 9 10 500%Z 3%Z)) as E
      by (vm_compute; reflexivity).
    rewrite E in Ho2. by injection Ho2. }
  split; [exact Hname|]. split; [exact Hd2 | exact Hheap].
Defined.

(** * Further properties of the registry bridge *)

Lemma find_handle_elem (ts : gmap N SCIP_TABLE) (nm : list byte)
    (hs : list N) (t : N) :
  find_handle ts nm hs = Some t →
  t ∈ hs ∧ ∃ e, ts !! t = Some e ∧ table_name e = nm.
Proof.
  induction hs as [|h hs IH]; simpl; [done|].
  destruct (ts !! h) as [e|] eqn:He.
  - case_decide as Hname.
    + intros [= <-]. split; [apply list_elem_of_here|]. eauto.
    + intros H. destruct (IH H) as [? ?].
      split; [by apply list_elem_of_further|done].
  - intros H. destruct (IH H) as [? ?].
    split; [by apply list_elem_of_further|done].
Qed.

Lemma find_handle_none (ts : gmap N SCIP_TABLE) (nm : list byte)
    (hs : list N) :
  (∀ t e, t ∈ hs → ts !! t = Some e → table_name e ≠ nm) →
  find_handle ts nm hs = None.
Proof.
  induction hs as [|h hs IH]; simpl; [done|]. intros Hno.
  assert (find_handle ts nm hs = None) as Hrest.
  { apply IH. intros t e Ht. apply Hno. by apply list_elem_of_further. }
  destruct (ts !! h) as [e|] eqn:He; [|done].
  rewrite decide_False; [done|].
  apply (Hno h e); [apply list_elem_of_here|done].
Qed.

(** An entry appended under a new handle is found by its name when no
    earlier entry has that name. *)
Lemma find_handle_appended (ts : gmap N SCIP_TABLE) (hs : list N) (t' : N)
    (e : SCIP_TABLE) :
  find_handle ts (table_name e) hs = None →
  find_handle (<[t' := e]> ts) (table_name e) (hs ++ [t']) = Some t'.
Proof.
  induction hs as [|h hs IH]; simpl.
  - intros _. rewrite lookup_insert_eq. by rewrite decide_True.
  - destruct (decide (t' = h)) as [<-|Hne].
    + intros _. rewrite lookup_insert_eq. by rewrite decide_True.
    + rewrite lookup_insert_ne by done.
      destruct (ts !! h) as [e0|]; [|done].
      case_decide; [done|]. exact IH.
Qed.

(** X10.  Inclusion followed by lookup: after [SCIPincludeObjTable]
    returned [SCIP_OKAY] for an object, [SCIPfindObjTable] with the
    object's name (through any pointer to that string) returns the very
    pointer that was included, and changes nothing. *)
Theorem find_after_include (scip objtable : ptr) (deleteobject : bool)
    (o : ObjTable) (w w' : World) :
  NULL ∉ registry w !!! scip →
  objs w !! objtable = Some o →
  SCIPincludeObjTable scip objtable deleteobject w = Done SCIP_OKAY w' →
  ∀ name, cstr (heap w') name = cstr (heap w) (scip_name_ o) →
          SCIPfindObjTable scip name w' = Done objtable w'.
Proof.
  intros Hwf Ho Hinc name Hname.
  unfold SCIPincludeObjTable in Hinc.
  cbv [mbind mret Comp_bind Comp_ret load_obj get_world modify undefined]
    in Hinc.
  rewrite Ho in Hinc. unfold SCIPfindTable in Hinc.
  destruct (cstr (heap w) (scip_name_ o)) as [nm|] eqn:Hnm; [|done].
  destruct (find_handle (tables w) nm (registry w !!! scip)) as [t0|] eqn:Hf.
  { simpl in Hinc. destruct (decide (t0 = NULL)) as [->|]; [|done].
    apply find_handle_elem in Hf as [Hin _]. done. }
  simpl in Hinc. rewrite Hnm in Hinc.
  destruct (cstr (heap w) (scip_desc_ o)) as [ds|]; [|done].
  destruct (grants (oracle w)); [|done].
  injection Hinc as <-. simpl in Hname.
  unfold SCIPfindObjTable, SCIPfindTable. cbv [mbind mret Comp_bind Comp_ret].
  simpl. rewrite Hname. rewrite lookup_total_insert_eq.
  set (e := mkTable nm ds (scip_position_ o) (scip_earlieststage_ o)
                    (TD_objtable objtable deleteobject)).
  rewrite (find_handle_appended (tables w) _ _ e) by done. simpl.
  rewrite decide_False by apply fresh_in_nonnull.
  unfold SCIPgetObjTable. simpl. by rewrite lookup_insert_eq.
Qed.

Lemma find_after_include_witness :
  ∃ w', SCIPincludeObjTable 9 1 true demo_one_object = Done SCIP_OKAY w' ∧
        SCIPfindObjTable 9 5 w' = Done 1 w'.
Proof.
  set (w' := outcome_world (SCIPincludeObjTable 9 1 true demo_one_object)
                           demo_one_object).
  assert (SCIPincludeObjTable 9 1 true demo_one_object = Done SCIP_OKAY w')
    as H by (vm_compute; reflexivity).
  exists w'. split; [exact H|].
  apply (find_after_include 9 1 true (mkObjTable 9 7 8 1000%Z 9%Z)
           demo_one_object w');
    [ | vm_compute; reflexivity | exact H | vm_compute; reflexivity].
  vm_compute. intros Hin. by apply elem_of_nil in Hin.
Defined.

(** X11.  A lookup that misses: when no entry of the host carries the
    name, [SCIPfindObjTable] returns 0 and changes nothing. *)
Theorem find_unregistered_null (scip name : ptr) (nm : list byte)
    (w : World) :
  cstr (heap w) name = Some nm →
  (∀ t e, t ∈ registry w !!! scip → tables w !! t = Some e →
          table_name e ≠ nm) →
  SCIPfindObjTable scip name w = Done NULL w.
Proof.
  intros Hname Hno.
  unfold SCIPfindObjTable, SCIPfindTable. cbv [mbind mret Comp_bind Comp_ret].
  rewrite Hname. by rewrite find_handle_none by done.
Qed.

Lemma find_unregistered_null_witness :
  SCIPfindObjTable 9 6 demo_included = Done NULL demo_included.
Proof.
  apply (find_unregistered_null 9 6
           (String.list_byte_of_string "gap statistics"));
    [vm_compute; reflexivity|].
  assert (registry demo_included !!! 9 = [1]) as E
    by (vm_compute; reflexivity).
  intros t e Hin He. rewrite E in Hin.
  apply list_elem_of_singleton in Hin as ->.
  vm_compute in He. injection He as <-. simpl. discriminate.
Defined.

(** What a lookup by name depends on: the string behind the pointer, the
    host's entries and its list of handles. *)
Lemma find_obj_depends (scip name : ptr) (w w' : World) (p : ptr) :
  cstr (heap w') name = cstr (heap w) name →
  tables w' = tables w → registry w' = registry w →
  SCIPfindObjTable scip name w = Done p w →
  SCIPfindObjTable scip name w' = Done p w'.
Proof.
  intros Hc Ht Hr.
  unfold SCIPfindObjTable, SCIPfindTable, SCIPgetObjTable.
  cbv [mbind mret Comp_bind Comp_ret]. rewrite Hc, Ht, Hr.
  destruct (cstr (heap w) name) as [nm|]; [|done].
  destruct (decide (default NULL (find_handle (tables w) nm
                                    (registry w !!! scip)) = NULL)).
  - by intros [= <-].
  - rewrite Ht. destruct (tables w !! _) as [e|]; [|done]. by intros [= <-].
Qed.

(** X12.  [SCIPincludeObjTable] never aborts and, whatever it returns,
    leaves the object, its strings and the rest of the heap alone and logs
    no allocation or release of a string; when it does not return
    [SCIP_OKAY], the host's entries and handles are unchanged too. *)
Theorem include_frame (scip objtable : ptr) (deleteobject : bool)
    (w : World) :
  (∀ rc w', SCIPincludeObjTable scip objtable deleteobject w
            ≠ Aborted rc w') ∧
  (∀ rc w', SCIPincludeObjTable scip objtable deleteobject w = Done rc w' →
            heap w' = heap w ∧ objs w' = objs w ∧ trace w' = trace w ∧
            (rc ≠ SCIP_OKAY →
             tables w' = tables w ∧ registry w' = registry w)).
Proof.
  unfold SCIPincludeObjTable, SCIPfindTable.
  cbv [mbind mret Comp_bind Comp_ret load_obj get_world modify undefined].
  destruct (objs w !! objtable) as [o|]; [|done].
  destruct (cstr (heap w) (scip_name_ o)) as [nm|] eqn:Hnm; [|done].
  destruct (decide (default NULL (find_handle (tables w) nm
                                    (registry w !!! scip)) = NULL)).
  - rewrite Hnm.
    destruct (cstr (heap w) (scip_desc_ o)) as [ds|]; [|done].
    destruct (grants (oracle w)); simpl.
    + split; [done|]. intros rc w' [= <- <-]. by simpl.
    + split; [done|]. intros rc w' [= <- <-]. by simpl.
  - split; [done|]. by intros rc w' [= <- <-].
Qed.

(** X13.  The destructor does not tell the host: when an object that is
    still included is deleted, its entry stays in the registry, and a
    lookup of its name keeps returning the pointer to the object that no
    longer exists.  (The header's usage comment asks for the object to be
    deleted after [SCIPfree] only.) *)
Theorem lookup_survives_delete (this scip name : ptr) (o : ObjTable)
    (p : ptr) (w : World) :
  this ≠ NULL →
  objs w !! this = Some o →
  scip_name_ o ≠ NULL → scip_desc_ o ≠ NULL →
  scip_name_ o ≠ scip_desc_ o →
  is_Some (heap w !! scip_name_ o) → is_Some (heap w !! scip_desc_ o) →
  name ≠ scip_name_ o → name ≠ scip_desc_ o →
  SCIPfindObjTable scip name w = Done p w →
  ∃ w', delete_ObjTable this w = Done tt w' ∧
        objs w' !! this = None ∧
        tables w' = tables w ∧ registry w' = registry w ∧
        SCIPfindObjTable scip name w' = Done p w'.
Proof.
  intros Hthis Ho Hn Hd Hnd Hln Hld Hname1 Hname2 Hfind.
  unfold delete_ObjTable. rewrite decide_False by done.
  cbv [mbind Comp_bind].
  rewrite (dtor_run this o); [|done|by right|by right|by intros ?].
  eexists. split; [reflexivity|]. simpl.
  split; [apply lookup_delete_eq|]. do 2 (split; [done|]).
  apply (find_obj_depends scip name w); try done. simpl.
  unfold cstr. by rewrite !release_lookup_ne.
Qed.

Lemma lookup_survives_delete_witness :
  ∃ w', delete_ObjTable 1 demo_included = Done tt w' ∧
        objs w' !! 1 = None ∧
        SCIPfindObjTable 9 5 w' = Done 1 w'.
Proof.
  destruct (lookup_survives_delete 1 9 5 (mkObjTable 9 7 8 1000%Z 9%Z) 1
              demo_included)
    as (w' & Hdel & Hgone & _ & _ & Hfind);
    [done | vm_compute; reflexivity | done | done | done
    | vm_compute; eauto | vm_compute; eauto | done | done
    | vm_compute; reflexivity |].
  exists w'. split; [exact Hdel|]. split; [exact Hgone | exact Hfind].
Defined.
